(** * hyprland-per-window-layout: the event parser, layout discovery,
      the window/layout tracker and the reconnecting supervisor

    Shallow embedding of [hypr/hypr.go] (package [hypr]) and of the
    [main] package that drives it ([processHyprlandEvents] and [main]),
    and, in [Legacy], of the earlier single-file program
    [cmd/perwindowlayout/main.go].

    - Go strings are [string] (sequences of bytes).
    - Go [int] values that can hold the sentinel [-1] are [Z]; the list
      positions and the retry counter, which never go below zero, are [nat].
    - Go maps are [gmap]; reading a missing key gives the zero value.
    - Every function that talks to the outside world (the [hyprctl]
      process, the event socket, the clock, the log) is a state
      transformer over a [World], and returns an [outcome]: a value, a Go
      [error], or a runtime panic. *)

From stdpp Require Import base option list strings pretty gmap.
From Stdlib Require Import ZArith Lia.

Open Scope string_scope.
Open Scope list_scope.
Open Scope Z_scope.

(** ** Go's [strings] package, as far as the program uses it *)

Module GoStrings.

(** [s[:n]] *)
Fixpoint take (n : nat) (s : string) : string :=
  match n, s with
  | S n', String c s' => String c (take n' s')
  | _, _ => ""
  end.

(** [s[n:]] *)
Fixpoint drop (n : nat) (s : string) : string :=
  match n, s with
  | S n', String _ s' => drop n' s'
  | _, _ => s
  end.

(** [strings.HasPrefix(s, prefix)] *)
Fixpoint HasPrefix (s pre : string) {struct pre} : bool :=
  match pre, s with
  | "", _ => true
  | String a pre', String b s' => if Ascii.eqb a b then HasPrefix s' pre' else false
  | String _ _, "" => false
  end.

(** [strings.Index(s, substr)]: the position of the first instance of
    [substr] in [s]; Go's [-1] is [None]. *)
Fixpoint Index (s substr : string) : option nat :=
  if HasPrefix s substr then Some 0%nat
  else match s with
       | "" => None
       | String _ s' => S <$> Index s' substr
       end.

(** The loop of [strings.genSplit] for a separator that is not empty:
    cut at the next instance of [sep] while there is one.  [n] bounds the
    number of cuts, as Go's [Count(s, sep)] does. *)
Fixpoint genSplit (n : nat) (s sep : string) : list string :=
  match n with
  | O => [s]
  | S n' =>
      match Index s sep with
      | None => [s]
      | Some m => take m s :: genSplit n' (drop (m + String.length sep) s) sep
      end
  end.

(** [strings.Split(s, sep)] for [sep <> ""] (the program only splits on
    [">>"] and [","]).  There are at most [len(s)] instances of a
    non-empty separator, see [genSplit_fuel]. *)
Definition Split (s sep : string) : list string :=
  genSplit (String.length s) s sep.

(** What the claims call "contains" and "the first occurrence". *)
Definition Contains (s sep : string) : Prop :=
  ∃ pre post, s = pre +:+ sep +:+ post.

Definition FirstAt (sep pre post s : string) : Prop :=
  s = pre +:+ sep +:+ post ∧
  ∀ pre' post', s = pre' +:+ sep +:+ post' →
                (String.length pre <= String.length pre')%nat.

End GoStrings.

(** ** Errors, panics and outcomes *)

(** A Go [error]: [fmt.Errorf] without a cause, with a wrapped cause
    (["...: %w"]), and with a wrapped cause and a final full stop
    (["...: %w."]). *)
Inductive error : Type :=
| errorString (msg : string)
| wrapError (msg : string) (cause : error)
| wrapErrorStop (msg : string) (cause : error).

(** [err.Error()] *)
Fixpoint Error (e : error) : string :=
  match e with
  | errorString msg => msg
  | wrapError msg cause => msg +:+ ": " +:+ Error cause
  | wrapErrorStop msg cause => msg +:+ ": " +:+ Error cause +:+ "."
  end.

(** A runtime panic: an index out of range, or [panic(err)]. *)
Inductive panic : Type :=
| IndexOutOfRange (index : Z) (len : nat)
| PanicError (e : error).

Inductive outcome (A : Type) : Type :=
| Ok (a : A)
| Err (e : error)
| Panicked (p : panic).
Arguments Ok {A} a.
Arguments Err {A} e.
Arguments Panicked {A} p.

(** ** [hypr.Event] and the parser inside [Client.ReadEvent] *)

Record Event := mkEvent { Name : string; Args : list string }.

(** Lines 74-82 of [hypr.go]: what [ReadEvent] does with the line it
    read.  [evtParts[1]] is an unchecked index.  [HyprlandSocket.ReadEvent]
    of [cmd/perwindowlayout/main.go] has the same body. *)
Definition parseEvent (data : string) : outcome Event :=
  let evtParts := GoStrings.Split data ">>" in
  if (length evtParts =? 0)%nat then
    Err (errorString "got event, but the format is unexpected")
  else
    match evtParts !! 0%nat with
    | None => Panicked (IndexOutOfRange 0 (length evtParts))
    | Some name =>
        match evtParts !! 1%nat with
        | None => Panicked (IndexOutOfRange 1 (length evtParts))
        | Some rawArgs => Ok (mkEvent name (GoStrings.Split rawArgs ","))
        end
    end.

(** ** The outside world *)

(** One keyboard of [hyprctl devices -j], and the decoded response. *)
Record Keyboard := mkKeyboard {
  Layout : string;
  ActiveKeymap : string;
  Main : bool;
  DeviceName : string
}.

Record DevicesResponse := mkDevicesResponse { Keyboards : list Keyboard }.

(** What [exec.Command("hyprctl", "devices", "-j").Output()] followed by
    [json.Unmarshal] can give. *)
Inductive DevicesOutput : Type :=
| ExecFailed (e : error)
| Malformed (e : error)
| Decoded (response : DevicesResponse).

(** The [hyprctl] process, the external device controller: a state of
    its own, a query and the switch command ([None] is a [nil] error). *)
Class Hyprctl (St : Type) := {
  hyprctl_devices : St → St * DevicesOutput;
  hyprctl_switchxkblayout : Z → St → St * option error
}.

(** [net.Dial("unix", socketPath)]: refused, or a connection that
    delivers these lines and then ends. *)
Inductive DialResult : Type :=
| Refused (e : error)
| Connected (lines : list string).

Inductive Level := LevelInfo | LevelWarn | LevelError.

(** Everything the program does to the world, in the order it does it.
    [slog.Debug] records are left out, and so are the formatted duration
    and the [retry] attribute of the "Waiting ... for recover" record. *)
Inductive Effect : Type :=
| ExecDevices
| ExecSwitch (layoutIdx : Z)
| Dial (socketPath : string)
| ReadLine (data : option string)
| CloseSock
| Sleep (d : Z)
| Log (level : Level) (msg : string).

Section Program.

Context {St : Type} `{!Hyprctl St}.

Record World := mkWorld {
  env_signature : option string;   (* HYPRLAND_INSTANCE_SIGNATURE *)
  current_user : error + string;   (* user.Current(): the Uid *)
  dials : nat → DialResult;        (* the n-th net.Dial of the run *)
  ndials : nat;                    (* how many dials were made *)
  ctl : St;                        (* hyprctl *)
  retry : nat;                     (* main's retry variable *)
  trace : list Effect
}.

Definition emit (e : Effect) (w : World) : World :=
  mkWorld (env_signature w) (current_user w) (dials w) (ndials w) (ctl w)
          (retry w) (trace w ++ [e]).

Definition set_ctl (s : St) (w : World) : World :=
  mkWorld (env_signature w) (current_user w) (dials w) (ndials w) s
          (retry w) (trace w).

Definition set_retry (n : nat) (w : World) : World :=
  mkWorld (env_signature w) (current_user w) (dials w) (ndials w) (ctl w)
          n (trace w).

Definition next_dial (w : World) : World :=
  mkWorld (env_signature w) (current_user w) (dials w) (S (ndials w)) (ctl w)
          (retry w) (trace w).

(** State and failure: a Go function with side effects. *)
Definition M (A : Type) : Type := World → World * outcome A.

Definition ret {A} (a : A) : M A := λ w, (w, Ok a).
Definition fail {A} (e : error) : M A := λ w, (w, Err e).
Definition bind {A B} (m : M A) (k : A → M B) : M B :=
  λ w, match m w with
       | (w', Ok a) => k a w'
       | (w', Err e) => (w', Err e)
       | (w', Panicked p) => (w', Panicked p)
       end.
Definition act (e : Effect) : M unit := λ w, (emit e w, Ok tt).

Notation "'let*' x := m 'in' k" := (bind m (λ x, k))
  (at level 10, x name, m at level 200, k at level 200).

(** [if err != nil { return fmt.Errorf(msg + ": %w", err) }] *)
Definition wrapping {A} (msg : string) (m : M A) : M A :=
  λ w, match m w with
       | (w', Err e) => (w', Err (wrapError msg e))
       | r => r
       end.

(** ** [hypr.Client] *)

Record Client := mkClient { closed : bool; reader : list string }.

Definition ErrClosed : error := errorString "clinet: closed".
Definition EOF : error := errorString "EOF".

(** [NewClient]; the returned close function is [CloseSock] below. *)
Definition NewClient : M Client := λ w,
  match env_signature w with
  | None => (w, Err (errorString "do you have Hyprland instance launched?"))
  | Some sign =>
      match current_user w with
      | inl e => (w, Err (wrapError "don't know who are you" e))
      | inr uid =>
          let socketPath := "/run/user/" +:+ uid +:+ "/hypr/" +:+ sign +:+ "/.socket2.sock" in
          let w1 := next_dial (emit (Dial socketPath) w) in
          match dials w (ndials w) with
          | Refused e =>
              (w1, Err (wrapErrorStop "can't connect to Hyprland event socket" e))
          | Connected lines => (w1, Ok (mkClient false lines))
          end
      end
  end.

(** [Client.ReadEvent] *)
Definition ReadEvent (c : Client) : M (Client * Event) := λ w,
  if closed c then (w, Err ErrClosed)
  else match reader c with
       | [] => (emit (ReadLine None) w,
                Err (wrapError "failed to read from socket2.sock" EOF))
       | data :: rest =>
           let w1 := emit (ReadLine (Some data)) w in
           match parseEvent data with
           | Ok evt => (w1, Ok (mkClient false rest, evt))
           | Err e => (w1, Err e)
           | Panicked p => (w1, Panicked p)
           end
       end.

(** [Client.SwitchXKBLayout]: runs [hyprctl switchxkblayout all <idx>]
    and hands back its error. *)
Definition SwitchXKBLayout (layoutIdx : Z) : M (option error) := λ w,
  let (s, e) := hyprctl_switchxkblayout layoutIdx (ctl w) in
  (set_ctl s (emit (ExecSwitch layoutIdx) w), Ok e).

Definition devices : M DevicesOutput := λ w,
  let (s, o) := hyprctl_devices (ctl w) in
  (set_ctl s (emit ExecDevices w), Ok o).

(** The inner [for _, kb := range response.Keyboards] of the scan: the
    first keyboard flagged main decides, the others are skipped. *)
Definition record_main (mainKb : Keyboard) (i : nat) (kbs : list Keyboard)
    (result : list string) (activeLayoutIdx : Z) : list string * Z :=
  match find Main kbs with
  | Some kb =>
      (<[i := ActiveKeymap kb]> result,
       if String.eqb (ActiveKeymap kb) (ActiveKeymap mainKb)
       then Z.of_nat i else activeLayoutIdx)
  | None => (result, activeLayoutIdx)
  end.

(** [for i, l := range layoutsShorts] of [ReadLayouts], from index [i]. *)
Fixpoint scan (mainKb : Keyboard) (i : nat) (layoutsShorts : list string)
    (result : list string) (activeLayoutIdx : Z) : M (list string * Z) :=
  match layoutsShorts with
  | [] => ret (result, activeLayoutIdx)
  | l :: rest =>
      let* e := SwitchXKBLayout (Z.of_nat i) in
      match e with
      | Some err => fail (wrapError ("failed to switch to layout " +:+ l) err)
      | None =>
          let* out := devices in
          match out with
          | ExecFailed err =>
              fail (wrapError ("failed to read layout " +:+ l +:+ " full name") err)
          | Malformed err =>
              fail (wrapError ("failed to unmarshal devices info while fetching layout "
                               +:+ l +:+ " name") err)
          | Decoded response =>
              let '(result', idx') :=
                record_main mainKb i (Keyboards response) result activeLayoutIdx in
              scan mainKb (S i) rest result' idx'
          end
      end
  end.

Definition strange_layout : string :=
  "Before gathering information there was strange layout activated. Can't restore it".

(** [Client.ReadLayouts] *)
Definition ReadLayouts : M (list string) :=
  let* out := devices in
  match out with
  | ExecFailed err => fail (wrapError "failed to execute hyprctl" err)
  | Malformed err => fail (wrapError "failed to unmarshal hyprctl response" err)
  | Decoded response =>
      match Keyboards response with
      | [] => λ w, (w, Panicked (IndexOutOfRange 0 0))
      | kb0 :: _ =>
          let mainKb := default kb0 (find Main (Keyboards response)) in
          let layoutsShorts := GoStrings.Split (Layout mainKb) "," in
          let result := replicate (length layoutsShorts) "" in
          let* r := scan mainKb 0 layoutsShorts result (-1) in
          let '(result, activeLayoutIdx) := r in
          if activeLayoutIdx =? -1 then
            let* _ := act (Log LevelWarn strange_layout) in
            ret result
          else
            let* e := SwitchXKBLayout activeLayoutIdx in
            match e with
            | Some err =>
                fail (wrapError
                        "failed to activate back layout that used before gathering" err)
            | None => ret result
            end
      end
  end.

(** ** The tracker: the state and the event loop of [processHyprlandEvents] *)

(** The local variables [layoutMap], [currentWindowId], [currentLayout]. *)
Record Tracker := mkTracker {
  layoutMap : gmap string Z;
  currentWindowId : string;
  currentLayout : Z
}.

Definition defaultLayout : Z := 0.

(** The values they start with (lines 29-32). *)
Definition initial : Tracker := mkTracker ∅ "" (-1).

(** [for i, l := range layouts { layoutToIndex[l] = i }], from index [i]. *)
Fixpoint index_layouts (i : nat) (layouts : list string)
    (layoutToIndex : gmap string Z) : gmap string Z :=
  match layouts with
  | [] => layoutToIndex
  | l :: rest => index_layouts (S i) rest (<[l := Z.of_nat i]> layoutToIndex)
  end.

(** [evt.Args[len(evt.Args)-1]]; out of range when [Args] is empty. *)
Definition last_arg (evt : Event) : M string := λ w,
  match last (Args evt) with
  | Some a => (w, Ok a)
  | None => (w, Panicked (IndexOutOfRange (-1) 0))
  end.

(** How one turn of the loop ends: [continue] (or falling out of the
    [switch]) with the locals as they are, or [return err]. *)
Inductive Turn : Type :=
| Next (t : Tracker)
| Return (t : Tracker) (err : error).

(** The [switch evt.Name] of lines 40-68. *)
Definition handleEvent (layoutToIndex : gmap string Z) (evt : Event)
    (t : Tracker) : M Turn :=
  if String.eqb (Name evt) "activelayout" then
    if String.eqb (currentWindowId t) "" then ret (Next t)
    else
      let* k := last_arg evt in
      let currentLayout' := default 0 (layoutToIndex !! k) in
      ret (Next (mkTracker (<[currentWindowId t := currentLayout']> (layoutMap t))
                           (currentWindowId t) currentLayout'))
  else if String.eqb (Name evt) "activewindowv2" then
    let* newWindowId := last_arg evt in
    if String.eqb (currentWindowId t) newWindowId then ret (Next t)
    else
      let t1 := mkTracker (layoutMap t) newWindowId (currentLayout t) in
      let windowLayout := default defaultLayout (layoutMap t1 !! currentWindowId t1) in
      if windowLayout =? currentLayout t1 then ret (Next t1)
      else
        let* err := SwitchXKBLayout windowLayout in
        match err with
        | Some e => ret (Return t1 (wrapError "failed to activate layout" e))
        | None => ret (Next t1)
        end
  else ret (Next t).

(** The [for] loop of lines 34-69 on an open client whose reader still
    holds [lines]; each turn starts with [client.ReadEvent()], see
    [eventLoop_ReadEvent]. It only ever leaves with an error or a panic. *)
Fixpoint eventLoop (resetRetryCount : M unit) (layoutToIndex : gmap string Z)
    (lines : list string) (t : Tracker) : M unit :=
  match lines with
  | [] =>
      let* _ := act (ReadLine None) in
      fail (wrapError "failed to read hyprland event"
                      (wrapError "failed to read from socket2.sock" EOF))
  | data :: rest =>
      let* _ := act (ReadLine (Some data)) in
      match parseEvent data with
      | Err e => fail (wrapError "failed to read hyprland event" e)
      | Panicked p => λ w, (w, Panicked p)
      | Ok evt =>
          let* _ := resetRetryCount in
          let* turn := handleEvent layoutToIndex evt t in
          match turn with
          | Next t' => eventLoop resetRetryCount layoutToIndex rest t'
          | Return _ err => fail err
          end
      end
  end.

(** [processHyprlandEvents]; the deferred [clientClose()] runs however
    the body ends. *)
Definition processHyprlandEvents (resetRetryCount : M unit) : M unit := λ w,
  match NewClient w with
  | (w1, Err e) => (w1, Err (wrapError "could not connect to the hyprland socket" e))
  | (w1, Panicked p) => (w1, Panicked p)
  | (w1, Ok client) =>
      let body :=
        let* layouts := wrapping "could not detect layouts" ReadLayouts in
        let layoutToIndex := index_layouts 0 layouts ∅ in
        eventLoop resetRetryCount layoutToIndex (reader client) initial in
      let (w2, r) := body w1 in
      (emit CloseSock w2, r)
  end.

(** ** The supervisor: [main] *)

Definition Millisecond : Z := 1000000.
Definition Second : Z := 1000 * Millisecond.

Definition retryWait : list Z :=
  [500 * Millisecond; Second; 2 * Second; 4 * Second].

Definition resetRetry : M unit := λ w, (set_retry 0 w, Ok tt).

(** One turn of [main]'s [for] loop (lines 92-100): [None] when the loop
    goes round again, [Some p] when the process dies of panic [p]. *)
Definition main_turn (w : World) : World * option panic :=
  match processHyprlandEvents resetRetry w with
  | (w1, Panicked p) => (w1, Some p)
  | (w1, Ok _) => (w1, None)
  | (w1, Err err) =>
      let w2 := emit (Log LevelError (Error err)) w1 in
      if (length retryWait <=? retry w2)%nat then (w2, Some (PanicError err))
      else
        match retryWait !! retry w2 with
        | None => (w2, Some (IndexOutOfRange (Z.of_nat (retry w2)) (length retryWait)))
        | Some d =>
            let w3 := emit (Log LevelInfo "Waiting for recover") w2 in
            (set_retry (S (retry w3)) (emit (Sleep d) w3), None)
        end
  end.

(** [main] after the log file is set up: [retry := 0], then the loop, for
    at most [fuel] turns.  [None]: still running after [fuel] turns. *)
Fixpoint main_loop (fuel : nat) (w : World) : World * option panic :=
  match fuel with
  | O => (w, None)
  | S fuel' =>
      match main_turn w with
      | (w', Some p) => (w', Some p)
      | (w', None) => main_loop fuel' w'
      end
  end.

Definition main (fuel : nat) (w : World) : World * option panic :=
  main_loop fuel (set_retry 0 w).

End Program.

Arguments World St : clear implicits.
Arguments M St A : clear implicits.

(** ** A reference controller

    A [hyprctl] with a fixed set of keyboards, each with its configured
    short-name list and the keymap name of every position.  The switch
    command moves all keyboards to the position, and fails on a position
    that some keyboard does not have.  It instantiates the statements
    below on concrete runs. *)

Record SimKeyboard := mkSimKeyboard {
  sim_layout : string;
  sim_keymaps : list string;
  sim_main : bool;
  sim_name : string
}.

Record Sim := mkSim { sim_keyboards : list SimKeyboard; sim_active : nat }.

Definition sim_report (active : nat) (kb : SimKeyboard) : Keyboard :=
  mkKeyboard (sim_layout kb) (nth active (sim_keymaps kb) "") (sim_main kb) (sim_name kb).

Definition sim_valid (i : Z) (kb : SimKeyboard) : bool :=
  (0 <=? i) && (i <? Z.of_nat (length (sim_keymaps kb))).

#[export] Instance sim_hyprctl : Hyprctl Sim := {|
  hyprctl_devices s :=
    (s, Decoded (mkDevicesResponse (map (sim_report (sim_active s)) (sim_keyboards s))));
  hyprctl_switchxkblayout i s :=
    if forallb (sim_valid i) (sim_keyboards s)
    then (mkSim (sim_keyboards s) (Z.to_nat i), None)
    else (s, Some (errorString "exit status 1"))
|}.

(** A controller that accepts every switch and remembers the last one;
    it reports no keyboards. *)
Record Accepting := mkAccepting { accepted : Z }.

#[export] Instance accepting_hyprctl : Hyprctl Accepting := {|
  hyprctl_devices s := (s, Decoded (mkDevicesResponse []));
  hyprctl_switchxkblayout i _ := (mkAccepting i, None)
|}.

(** A world around a controller state [s]: the session signature is
    [sign], every dial gives a connection that delivers [lines], nothing
    has happened yet. *)
Definition world_of {St} (sign : option string) (lines : list string) (s : St) : World St :=
  mkWorld sign (inr "1000") (λ _, Connected lines) 0 s 0 [].

(** The commands, the waits and the warnings of a trace. *)
Definition switches (tr : list Effect) : list Z :=
  omap (λ e, match e with ExecSwitch i => Some i | _ => None end) tr.

Definition sleeps (tr : list Effect) : list Z :=
  omap (λ e, match e with Sleep d => Some d | _ => None end) tr.

Definition warnings (tr : list Effect) : list string :=
  omap (λ e, match e with Log LevelWarn msg => Some msg | _ => None end) tr.

Definition dialled (tr : list Effect) : list string :=
  omap (λ e, match e with Dial p => Some p | _ => None end) tr.

(** ** What a statement may assume of the controller

    [Inv] picks out the controller states the assumption is about; it
    must hold again after every call. *)

Section Assumptions.

Context {St : Type} `{!Hyprctl St}.

(** Every switch to a position below [n] succeeds. *)
Definition AcceptsSwitches (Inv : St → Prop) (n : nat) : Prop :=
  ∀ i s, Inv s → (i < n)%nat →
         ∃ s', hyprctl_switchxkblayout (Z.of_nat i) s = (s', None) ∧ Inv s'.

(** Every query is answered, and no keyboard of the answer is main. *)
Definition ReportsNoMain (Inv : St → Prop) : Prop :=
  ∀ s, Inv s →
       ∃ s' response, hyprctl_devices s = (s', Decoded response) ∧ Inv s' ∧
                      find Main (Keyboards response) = None.

(** The controller is on position [active s]; every query is answered
    with a main keyboard that reports the short-name list [layout] and the
    keymap name of the active position. *)
Definition ReportsMain (Inv : St → Prop) (active : St → nat)
    (keymap : nat → string) (layout : string) : Prop :=
  ∀ s, Inv s →
       ∃ s' response kb,
         hyprctl_devices s = (s', Decoded response) ∧ Inv s' ∧ active s' = active s ∧
         find Main (Keyboards response) = Some kb ∧
         Layout kb = layout ∧ ActiveKeymap kb = keymap (active s).

(** A switch to a position below [n] succeeds and moves there. *)
Definition SwitchesTo (Inv : St → Prop) (active : St → nat) (n : nat) : Prop :=
  ∀ i s, Inv s → (i < n)%nat →
         ∃ s', hyprctl_switchxkblayout (Z.of_nat i) s = (s', None) ∧ Inv s' ∧
               active s' = i.

End Assumptions.

(** Concrete controllers and inputs for the runs evaluated below. *)

(** One main keyboard with the layouts [en] and [us], on [en]. *)
Definition sim_en_us : Sim :=
  mkSim [mkSimKeyboard "en,us" ["en"; "us"] true "kbd"] 0.

(** Three layouts, on the second. *)
Definition sim_three : Sim :=
  mkSim [mkSimKeyboard "us,de,fr" ["English (US)"; "German"; "French"] true "kbd"] 1.

(** Two layouts with one keymap name, on the first. *)
Definition sim_twins : Sim :=
  mkSim [mkSimKeyboard "us,us" ["English (US)"; "English (US)"] true "kbd"] 0.

(** Two layouts, on the first; the only keyboard is not flagged main. *)
Definition sim_no_main : Sim :=
  mkSim [mkSimKeyboard "us,de" ["English (US)"; "German"] false "kbd"] 0.

(** No keyboard at all: [hyprctl devices -j] prints an empty list. *)
Definition sim_none : Sim := mkSim [] 0.

(** A controller whose switch command always fails. *)
Definition sim_broken : Sim := mkSim [mkSimKeyboard "" [] true "kbd"] 0.

(** The layout table [{"en": 0, "us": 1}]. *)
Definition en_us_table : gmap string Z := index_layouts 0 ["en"; "us"] ∅.

Definition end_to_end_lines : list string :=
  ["activewindowv2>>W1"; "activelayout>>us"; "activewindowv2>>W2"; "activewindowv2>>W1"].

(** How [eventLoop] ends when the lines run out. *)
Definition read_failed : error :=
  wrapError "failed to read hyprland event"
            (wrapError "failed to read from socket2.sock" EOF).

(** ** Reading a run of the supervisor off its trace *)

(** A line that [ReadEvent] turned into an event. *)
Definition is_event (e : Effect) : bool :=
  match e with
  | ReadLine (Some data) => match parseEvent data with Ok _ => true | _ => false end
  | _ => false
  end.

(** The failed attempts in a row at the end of a trace, starting from
    [k]: [main] logs every failed attempt at level error, and an event
    that was read starts the count again ([resetRetryCount()] runs right
    after [ReadEvent], before the event is handled, so the count starts
    again whether or not the event is then processed with success). *)
Fixpoint consecutive_failures (k : nat) (tr : list Effect) : nat :=
  match tr with
  | [] => k
  | e :: tr' =>
      consecutive_failures
        (if is_event e then 0%nat
         else match e with Log LevelError _ => S k | _ => k end) tr'
  end.

(** Entries that are neither a wait nor the record of a failed attempt. *)
Definition quiet (e : Effect) : bool :=
  match e with
  | Sleep _ | Log LevelError _ => false
  | _ => true
  end.

(** Entries that say nothing about events, waits or failed attempts. *)
Definition inert (e : Effect) : bool :=
  match e with
  | ReadLine _ | Sleep _ | Log LevelError _ => false
  | _ => true
  end.

Section Frames.

Context {St : Type} `{!Hyprctl St}.

(** [w'] comes after [w] by inert entries, with the retry counter kept. *)
Definition Frame (w w' : World St) : Prop :=
  retry w' = retry w ∧ ∃ tr, trace w' = trace w ++ tr ∧ forallb inert tr = true.

(** [w'] comes after [w] by quiet entries, with the retry counter set to
    zero if an event was read, and kept otherwise. *)
Definition Attempt (w w' : World St) : Prop :=
  ∃ tr, trace w' = trace w ++ tr ∧ forallb quiet tr = true ∧
        retry w' = if existsb is_event tr then 0%nat else retry w.

Definition Framed {A} (m : M St A) : Prop := ∀ w w' r, m w = (w', r) → Frame w w'.
Definition Attempted {A} (m : M St A) : Prop := ∀ w w' r, m w = (w', r) → Attempt w w'.

End Frames.

(** Worlds whose dials are scripted: all refused; and refused twice,
    then one connection that delivers a single event, then refused. *)
Definition refused : error := errorString "connect: no such file or directory".

Definition world_refused : World Sim :=
  mkWorld (Some "sig") (inr "1000") (λ _, Refused refused) 0 sim_en_us 0 [].

Definition world_one_event : World Sim :=
  mkWorld (Some "sig") (inr "1000")
          (λ n, if (n =? 2)%nat then Connected ["activewindowv2>>W1"] else Refused refused)
          0 sim_en_us 0 [].

(** What [main] gets from an attempt when the session signature is
    missing, and what it logs for it. *)
Definition no_signature : error :=
  wrapError "could not connect to the hyprland socket"
            (errorString "do you have Hyprland instance launched?").

Definition failed_attempt (err : error) (d : Z) : list Effect :=
  [Log LevelError (Error err); Log LevelInfo "Waiting for recover"; Sleep d].

(** ** Further vocabulary for the statements below *)

(** [strings.Join(parts, sep)]: the inverse the parser is measured against. *)
Fixpoint Join (parts : list string) (sep : string) : string :=
  match parts with
  | [] => ""
  | [p] => p
  | p :: rest => p +:+ sep +:+ Join rest sep
  end.

(** How many positions the first response of a discovery configures:
    the entries of the short-name list of its main keyboard (of its first
    keyboard when none is main); zero when there is no such list. *)
Definition configured (out : DevicesOutput) : nat :=
  match out with
  | Decoded response =>
      match Keyboards response with
      | [] => 0%nat
      | kb0 :: _ =>
          length (GoStrings.Split (Layout (default kb0 (find Main (Keyboards response)))) ",")
      end
  | _ => 0%nat
  end.

(** Trace entries of a discovery over [n] positions: queries, switches
    to a position below [n], the warning. *)
Definition discovery_entry (n : nat) (e : Effect) : bool :=
  match e with
  | ExecDevices | Log LevelWarn _ => true
  | ExecSwitch i => (0 <=? i) && (i <? Z.of_nat n)
  | _ => false
  end.

(** Trace entries of the event loop over a table of [n] layouts: reads,
    and switches to a position below [n]. *)
Definition tracking_entry (n : nat) (e : Effect) : bool :=
  match e with
  | ReadLine _ => true
  | ExecSwitch i => (0 <=? i) && (i <? Z.of_nat n)
  | _ => false
  end.

(** Entries that neither open nor close a socket. *)
Definition keeps_socket (e : Effect) : bool :=
  match e with
  | Dial _ | CloseSock => false
  | _ => true
  end.

Section Emitting.

Context {St : Type} `{!Hyprctl St}.

(** Whatever [m] does, it adds only entries that satisfy [P]. *)
Definition Emits {A} (P : Effect → bool) (m : M St A) : Prop :=
  ∀ w, ∃ tr, trace (m w).1 = trace w ++ tr ∧ forallb P tr = true.

(** Every layout remembered by the tracker is a position below [n]. *)
Definition remembers_below (n : nat) (t : Tracker) : Prop :=
  map_Forall (λ _ v, 0 <= v < Z.of_nat n) (layoutMap t).

End Emitting.

(** ** The earlier program: [cmd/perwindowlayout/main.go]

    One file that holds its own socket, parser, discovery and loop.  It
    connects and discovers once, before the loop; the loop reconnects on a
    failed read and keeps its table and its window map. *)

Module Legacy.

Section Program.

Context {St : Type} `{!Hyprctl St}.

Notation "'let*' x := m 'in' k" := (bind m (λ x, k))
  (at level 10, x name, m at level 200, k at level 200).

(** [activateLayout]: the same [hyprctl switchxkblayout all <idx>] run
    as [Client.SwitchXKBLayout]. *)
Definition activateLayout (layoutIdx : Z) : M St (option error) :=
  SwitchXKBLayout layoutIdx.

(** [readLayouts]: statement for statement the body of
    [Client.ReadLayouts], with the switch command run in place. *)
Definition readLayouts : M St (list string) := ReadLayouts.

(** [HyprlandSocket.Connect]: the lines of the new reader; on an error
    [hs.reader] stays what it was. *)
Definition Connect : M St (list string) := λ w,
  match env_signature w with
  | None => (w, Err (errorString "do you have Hyprland instance launched?"))
  | Some sign =>
      match current_user w with
      | inl e => (w, Err (wrapError "don't know who are you" e))
      | inr uid =>
          let socketPath := "/run/user/" +:+ uid +:+ "/hypr/" +:+ sign +:+ "/.socket2.sock" in
          let w1 := next_dial (emit (Dial socketPath) w) in
          match dials w (ndials w) with
          | Refused e =>
              (w1, Err (wrapErrorStop "can't connect to Hyprland event socket" e))
          | Connected lines => (w1, Ok lines)
          end
      end
  end.

(** [HyprlandSocket.ReadEvent] on a reader that still holds [reader]. *)
Definition ReadEvent (reader : list string) : M St (list string * Event) := λ w,
  match reader with
  | [] => (emit (ReadLine None) w,
           Err (wrapError "failed to read from socket2.sock" EOF))
  | data :: rest =>
      let w1 := emit (ReadLine (Some data)) w in
      match parseEvent data with
      | Ok evt => (w1, Ok (rest, evt))
      | Err e => (w1, Err e)
      | Panicked p => (w1, Panicked p)
      end
  end.

(** The [switch evt.name] of lines 188-211.  It has no error return: a
    failed switch is a panic. *)
Definition handle (layoutToIndex : gmap string Z) (evt : Event) (t : Tracker)
    : M St Tracker :=
  if String.eqb (Name evt) "activelayout" then
    let* k := last_arg evt in
    let currentLayout' := default 0 (layoutToIndex !! k) in
    if String.eqb (currentWindowId t) "" then
      ret (mkTracker (layoutMap t) (currentWindowId t) currentLayout')
    else
      ret (mkTracker (<[currentWindowId t := currentLayout']> (layoutMap t))
                     (currentWindowId t) currentLayout')
  else if String.eqb (Name evt) "activewindowv2" then
    let* newWindowId := last_arg evt in
    let t1 := mkTracker (layoutMap t) newWindowId (currentLayout t) in
    let windowLayout := default defaultLayout (layoutMap t1 !! currentWindowId t1) in
    let* err := activateLayout windowLayout in
    match err with
    | Some e =>
        let err' := wrapError "Failed to activate layout" e in
        let* _ := act (Log LevelError (Error err')) in
        λ w, (w, Panicked (PanicError err'))
    | None => ret t1
    end
  else ret t.

(** How a turn of the loop ends: it goes round with this reader and these
    locals, or the process dies. *)
Inductive Step : Type :=
| Goes (reader : list string) (t : Tracker)
| Dies (p : panic).

Definition reconnect_failed : string :=
  "Failed to reconnect to the socket when error is acquired while reading".

(** One turn of the [for] loop of lines 168-212. *)
Definition turn (layoutToIndex : gmap string Z) (reader : list string) (t : Tracker)
    (w : World St) : World St * Step :=
  if (3 <? retry w)%nat then
    let err := errorString ("Failed to reconnect after " +:+ pretty (retry w)
                            +:+ " attempts") in
    (emit (Log LevelError (Error err)) w, Dies (PanicError err))
  else
    let w0 := if (0 <? retry w)%nat
              then emit (Sleep (Z.of_nat (retry w) * Second)) w else w in
    match ReadEvent reader w0 with
    | (w1, Err _) =>
        let w2 := set_retry (S (retry w1)) w1 in
        match Connect w2 with
        | (w3, Ok reader') => (w3, Goes reader' t)
        | (w3, Err e) =>
            (emit (Log LevelError (Error (wrapError reconnect_failed e))) w3,
             Goes reader t)
        | (w3, Panicked p) => (w3, Dies p)
        end
    | (w1, Panicked p) => (w1, Dies p)
    | (w1, Ok (reader', evt)) =>
        match handle layoutToIndex evt t (set_retry 0 w1) with
        | (w3, Ok t') => (w3, Goes reader' t')
        | (w3, Err e) => (w3, Dies (PanicError e))
        | (w3, Panicked p) => (w3, Dies p)
        end
    end.

Fixpoint loop (fuel : nat) (layoutToIndex : gmap string Z) (reader : list string)
    (t : Tracker) (w : World St) : World St * option panic :=
  match fuel with
  | O => (w, None)
  | S fuel' =>
      match turn layoutToIndex reader t w with
      | (w', Dies p) => (w', Some p)
      | (w', Goes reader' t') => loop fuel' layoutToIndex reader' t' w'
      end
  end.

(** [main] after the log file is set up; [None]: still running after
    [fuel] turns of the loop. *)
Definition main (fuel : nat) (w : World St) : World St * option panic :=
  match Connect w with
  | (w1, Err e) =>
      let err := wrapError "Could not connect to the hyprland socket" e in
      (emit (Log LevelError (Error err)) w1, Some (PanicError err))
  | (w1, Panicked p) => (w1, Some p)
  | (w1, Ok reader) =>
      match readLayouts w1 with
      | (w2, Err e) =>
          let err := wrapError "Could not detect layouts" e in
          (emit (Log LevelError (Error err)) w2, Some (PanicError err))
      | (w2, Panicked p) => (w2, Some p)
      | (w2, Ok layouts) =>
          loop fuel (index_layouts 0 layouts ∅) reader initial (set_retry 0 w2)
      end
  end.

End Program.

End Legacy.

(** A world whose third and later dials are refused, after two
    connections: the first delivers two focus events for one window. *)
Definition world_legacy : World Sim :=
  mkWorld (Some "sig") (inr "1000")
          (λ n, if (n =? 0)%nat then Connected ["activewindowv2>>W1"; "activewindowv2>>W1"]
                else Refused refused)
          0 sim_en_us 0 [].

(** ** The backoff schedule read off a trace *)


(** [schedule k tr]: the trace [tr] follows the backoff schedule, [k]
    failed attempts in a row having come before it.  A line that was read
    and parsed sets the count back to zero.  The record of a failed
    attempt, the [k+1]-th in a row, is followed by the "waiting" record
    and the wait [retryWait[k]] when [k] is below the length of
    [retryWait], and is the last entry of the trace otherwise.  No other
    wait occurs. *)
Fixpoint schedule (k : nat) (tr : list Effect) : bool :=
  match tr with
  | [] => true
  | e :: tr' =>
      if is_event e then schedule 0 tr'
      else
        match e with
        | Sleep _ => false
        | Log LevelError _ =>
            match retryWait !! k, tr' with
            | Some d, Log LevelInfo _ :: Sleep d' :: tr'' =>
                (d' =? d) && schedule (S k) tr''
            | None, [] => true
            | _, _ => false
            end
        | _ => schedule k tr'
        end
  end.

(** A controller with one layout whose every third switch command
    fails: in each attempt the two switches of discovery succeed and the
    first switch of the tracker fails. *)
Record Flaky := mkFlaky { flaky_calls : nat }.

#[export] Instance flaky_hyprctl : Hyprctl Flaky := {|
  hyprctl_devices s :=
    (s, Decoded (mkDevicesResponse [mkKeyboard "en" "English (US)" true "kbd"]));
  hyprctl_switchxkblayout i s :=
    (mkFlaky (S (flaky_calls s)),
     if (flaky_calls s mod 3 =? 2)%nat then Some (errorString "exit status 1") else None)
|}.


(** * Properties *)

(** ** Strings *)

Module GoStringsFacts.
Import GoStrings.

#[local] Arguments String.append !_ _ / : simpl nomatch.

Lemma length_append (a b : string) :
  String.length (a +:+ b) = (String.length a + String.length b)%nat.
Proof. induction a as [|c a IH]; simpl; [done | by rewrite IH]. Qed.

Lemma append_assoc (a b c : string) : (a +:+ b) +:+ c = a +:+ (b +:+ c).
Proof. induction a as [|x a IH]; simpl; [done | by rewrite IH]. Qed.

Lemma take_append (a b : string) : take (String.length a) (a +:+ b) = a.
Proof. induction a as [|c a IH]; simpl; [by destruct b | by rewrite IH]. Qed.

Lemma drop_append (a b : string) : drop (String.length a) (a +:+ b) = b.
Proof. induction a as [|c a IH]; simpl; [by destruct b | done]. Qed.

Lemma take_drop (n : nat) (s : string) : take n s +:+ drop n s = s.
Proof.
  revert s; induction n as [|n IH]; intros [|c s]; simpl; try done.
  by rewrite IH.
Qed.

Lemma length_drop (n : nat) (s : string) :
  String.length (drop n s) = (String.length s - n)%nat.
Proof. revert s; induction n as [|n IH]; intros [|c s]; simpl; auto. Qed.

Lemma HasPrefix_true (s pre : string) :
  HasPrefix s pre = true ↔ ∃ post, s = pre +:+ post.
Proof.
  revert s; induction pre as [|a pre IH]; intros s; simpl.
  - split; [eauto | done].
  - destruct s as [|b s].
    + split; [done | by intros [post ?]].
    + destruct (Ascii.eqb_spec a b) as [->|Hne].
      * rewrite IH. split; intros [post Hp]; exists post; congruence.
      * split; [done | intros [post Hp]; congruence].
Qed.

Lemma Index_lt (s sep : string) (m : nat) :
  Index s sep = Some m → (m + String.length sep <= String.length s)%nat.
Proof.
  revert m; induction s as [|c s IH]; intros m; simpl.
  - destruct (HasPrefix "" sep) eqn:Hp; [|done].
    intros [= <-]. apply HasPrefix_true in Hp as [post Hp].
    destruct sep; [simpl; lia | done].
  - destruct (HasPrefix (String c s) sep) eqn:Hp.
    + intros [= <-]. apply HasPrefix_true in Hp as [post Hp].
      apply (f_equal String.length) in Hp. rewrite length_append in Hp.
      simpl in Hp. lia.
    + destruct (Index s sep) as [m'|] eqn:Hi; [|done].
      intros [= <-]. specialize (IH m' eq_refl). simpl; lia.
Qed.

(** [Index] finds an instance of [sep], and it is the leftmost one. *)
Lemma Index_Some (s sep : string) (m : nat) :
  Index s sep = Some m →
  FirstAt sep (take m s) (drop (m + String.length sep) s) s.
Proof.
  revert m; induction s as [|c s IH]; intros m.
  - simpl. destruct (HasPrefix "" sep) eqn:Hp; [|done].
    intros [= <-]. apply HasPrefix_true in Hp as [post Hp].
    destruct sep; [|done]. split; [done | simpl; lia].
  - cbn [Index]. destruct (HasPrefix (String c s) sep) eqn:Hp.
    + intros [= <-]. apply HasPrefix_true in Hp as [post Hp].
      split; [|simpl; lia].
      cbn [take plus]. rewrite Hp at 2. by rewrite drop_append.
    + destruct (Index s sep) as [m'|] eqn:Hi; [|done].
      intros [= <-]. destruct (IH m' eq_refl) as [Heq Hmin].
      split.
      * simpl. by rewrite <- Heq.
      * intros pre' post' Hs. destruct pre' as [|c' pre'].
        -- exfalso. assert (HasPrefix (String c s) sep = true) as Hp'.
           { apply HasPrefix_true. by exists post'. }
           congruence.
        -- simpl in Hs. injection Hs as -> Hs.
           specialize (Hmin _ _ Hs). simpl in *. lia.
Qed.

Lemma Index_None (s sep : string) : Index s sep = None ↔ ¬ Contains s sep.
Proof.
  split.
  - induction s as [|c s IH]; cbn [Index].
    + destruct (HasPrefix "" sep) eqn:Hp; [done|]. intros _ (pre & post & Hs).
      destruct pre; [|done].
      assert (HasPrefix "" sep = true) by (apply HasPrefix_true; eauto).
      congruence.
    + destruct (HasPrefix (String c s) sep) eqn:Hp; [done|].
      destruct (Index s sep) eqn:Hi; [done|]. intros _ (pre & post & Hs).
      destruct pre as [|c' pre].
      * assert (HasPrefix (String c s) sep = true) by (apply HasPrefix_true; eauto).
        congruence.
      * simpl in Hs. injection Hs as -> Hs. apply IH; [done|]. by exists pre, post.
  - intros Hn. destruct (Index s sep) as [m|] eqn:Hi; [|done].
    destruct (Index_Some _ _ _ Hi) as [Hs _]. exfalso. apply Hn.
    by exists (take m s), (drop (m + String.length sep) s).
Qed.

Lemma Index_FirstAt (sep pre post s : string) :
  FirstAt sep pre post s → Index s sep = Some (String.length pre).
Proof.
  intros [Hs Hmin]. destruct (Index s sep) as [m|] eqn:Hi.
  - destruct (Index_Some _ _ _ Hi) as [Hs' Hmin'].
    pose proof (Hmin _ _ Hs') as H1. pose proof (Hmin' _ _ Hs) as H2.
    assert (String.length (take m s) = m) as Hm.
    { pose proof (Index_lt _ _ _ Hi) as Hlt.
      pose proof (f_equal String.length (take_drop m s)) as Hl.
      rewrite length_append, length_drop in Hl. lia. }
    f_equal. lia.
  - apply Index_None in Hi. exfalso. apply Hi. by exists pre, post.
Qed.

(** More fuel than the length of the string changes nothing: every cut
    removes at least the separator. *)
Lemma genSplit_fuel (sep : string) (n : nat) (s : string) :
  sep ≠ "" → (String.length s <= n)%nat →
  genSplit n s sep = genSplit (String.length s) s sep.
Proof.
  intros Hsep.
  assert (∀ k n s, (String.length s <= k)%nat → (String.length s <= n)%nat →
                   genSplit n s sep = genSplit k s sep) as H.
  { clear n s. induction k as [|k IH]; intros n s Hk Hn.
    - destruct s; [|simpl in Hk; lia].
      destruct n; simpl; [done|].
      destruct (HasPrefix "" sep) eqn:Hp; [|done].
      apply HasPrefix_true in Hp as [post Hp]. by destruct sep.
    - destruct n as [|n].
      + destruct s; [|simpl in Hn; lia]. simpl.
        destruct (HasPrefix "" sep) eqn:Hp; [|done].
        apply HasPrefix_true in Hp as [post Hp]. by destruct sep.
      + cbn [genSplit]. destruct (Index s sep) as [m|] eqn:Hi; [|done].
        f_equal. pose proof (Index_lt _ _ _ Hi).
        assert (0 < String.length sep)%nat by (destruct sep; [done | simpl; lia]).
        apply IH; rewrite length_drop; lia. }
  intros Hn. by apply H.
Qed.

(** [Split] never gives an empty list. *)
Lemma Split_nonempty (s sep : string) : Split s sep ≠ [].
Proof.
  unfold Split. destruct (String.length s); simpl; [done|].
  by destruct (Index s sep).
Qed.

End GoStringsFacts.

(** ** The parser *)

Section Parser.
Import GoStrings GoStringsFacts.

(** A line without the delimiter: [strings.Split] gives the line itself
    as the only part, and [evtParts[1]] is out of range. *)
Lemma parseEvent_no_delimiter (data : string) :
  ¬ Contains data ">>" → parseEvent data = Panicked (IndexOutOfRange 1 1).
Proof.
  intros Hn. apply Index_None in Hn. unfold parseEvent, Split.
  destruct (String.length data); simpl; by rewrite ?Hn.
Qed.

(** The check [len(evtParts) == 0] never fires. *)
Lemma parseEvent_never_Err (data : string) (e : error) : parseEvent data ≠ Err e.
Proof.
  unfold parseEvent. pose proof (Split_nonempty data ">>") as Hne.
  destruct (Split data ">>") as [|name [|rawArgs parts]]; done.
Qed.

(** The first two parts of a line with a delimiter. *)
Lemma Split_delimited (line pre post : string) :
  FirstAt ">>" pre post line →
  ∃ parts, Split line ">>" =
           pre :: match Index post ">>" with
                  | None => post
                  | Some m => take m post
                  end :: parts.
Proof.
  intros Hf. pose proof (Index_FirstAt _ _ _ _ Hf) as Hi. destruct Hf as [-> _].
  unfold Split. rewrite !length_append.
  replace (String.length pre + (String.length ">>" + String.length post))%nat
    with (S (S (String.length pre + String.length post))) by (simpl; lia).
  cbn [genSplit]. rewrite Hi, take_append.
  replace (drop (String.length pre + String.length ">>") (pre +:+ ">>" +:+ post))
    with post.
  2:{ rewrite <- append_assoc, <- length_append. by rewrite drop_append. }
  destruct (Index post ">>") as [m|]; eauto.
Qed.

(** C2 (code defect): a line without [">>"] does not make the parser
    return an error value; it panics on [evtParts[1]].  Evaluated on the
    line ["activewindowv2"], alone and through [Client.ReadEvent]. *)
Theorem ReadEvent_without_delimiter_panics :
  parseEvent "activewindowv2" = Panicked (IndexOutOfRange 1 1) ∧
  ReadEvent (mkClient false ["activewindowv2"]) (world_of (Some "sig") [] sim_none)
  = (emit (ReadLine (Some "activewindowv2")) (world_of (Some "sig") [] sim_none),
     Panicked (IndexOutOfRange 1 1)).
Proof. split; reflexivity. Qed.

(** C4 as stated fails: on ["a>>b>>c"] the text after the first [">>"]
    is ["b>>c"], but the arguments are those of ["b"] alone. *)
Lemma parseEvent_not_rest_of_line :
  ¬ (∀ line pre post : string,
       FirstAt ">>" pre post line →
       parseEvent line = Ok (mkEvent pre (Split post ","))).
Proof.
  intros H. specialize (H "a>>b>>c" "a" "b>>c").
  assert (FirstAt ">>" "a" "b>>c" "a>>b>>c") as Hf.
  { exact (Index_Some "a>>b>>c" ">>" 1 eq_refl). }
  specialize (H Hf). vm_compute in H. discriminate H.
Qed.

(** C4 (amended): for a line that contains [">>"], the name is the text
    before the first [">>"], and the arguments are the text between the
    first [">>"] and the next one (the rest of the line when there is no
    other), split on [","]. *)
Theorem parseEvent_delimited (line pre post : string) :
  FirstAt ">>" pre post line →
  ∃ seg, parseEvent line = Ok (mkEvent pre (Split seg ",")) ∧
         (¬ Contains post ">>" → seg = post) ∧
         (∀ seg' rest, FirstAt ">>" seg' rest post → seg = seg').
Proof.
  intros Hf. destruct (Split_delimited _ _ _ Hf) as [parts Hs].
  exists (match Index post ">>" with None => post | Some m => take m post end).
  split; [|split].
  - unfold parseEvent. by rewrite Hs.
  - intros Hn. apply Index_None in Hn. by rewrite Hn.
  - intros seg' rest Hf'. rewrite (Index_FirstAt _ _ _ _ Hf').
    destruct Hf' as [-> _]. by rewrite take_append.
Qed.

Lemma parseEvent_delimited_witness :
  FirstAt ">>" "NAME" "A,B,C" "NAME>>A,B,C" ∧
  ∃ seg, parseEvent "NAME>>A,B,C" = Ok (mkEvent "NAME" (Split seg ",")) ∧
         (¬ Contains "A,B,C" ">>" → seg = "A,B,C") ∧
         (∀ seg' rest, FirstAt ">>" seg' rest "A,B,C" → seg = seg').
Proof.
  split.
  - exact (Index_Some "NAME>>A,B,C" ">>" 4 eq_refl).
  - apply (parseEvent_delimited "NAME>>A,B,C" "NAME" "A,B,C").
    exact (Index_Some "NAME>>A,B,C" ">>" 4 eq_refl).
Defined.

Example parseEvent_three_args :
  parseEvent "NAME>>A,B,C" = Ok (mkEvent "NAME" ["A"; "B"; "C"]).
Proof. reflexivity. Qed.

Example parseEvent_empty_args : parseEvent "NAME>>" = Ok (mkEvent "NAME" [""]).
Proof. reflexivity. Qed.

End Parser.

(** ** The tracker *)

Section TrackerFacts.

Context {St : Type} `{!Hyprctl St}.
Implicit Types (w : World St) (t : Tracker) (evt : Event).

Lemma SwitchXKBLayout_run (i : Z) w :
  SwitchXKBLayout i w =
  (set_ctl (hyprctl_switchxkblayout i (ctl w)).1 (emit (ExecSwitch i) w),
   Ok (hyprctl_switchxkblayout i (ctl w)).2).
Proof. unfold SwitchXKBLayout. by destruct (hyprctl_switchxkblayout i (ctl w)). Qed.

(** [activelayout] while a window is current: the layout is looked up
    and recorded for that window; nothing is sent. *)
Lemma handleEvent_activelayout idx evt t k w :
  Name evt = "activelayout" → currentWindowId t ≠ "" → last (Args evt) = Some k →
  handleEvent idx evt t w =
  (w, Ok (Next (mkTracker (<[currentWindowId t := default 0 (idx !! k)]> (layoutMap t))
                          (currentWindowId t) (default 0 (idx !! k))))).
Proof.
  intros Hn Hw Hl. unfold handleEvent, bind, last_arg, ret. rewrite Hn, Hl. simpl.
  apply String.eqb_neq in Hw. by rewrite Hw.
Qed.

(** [activewindowv2] for the window that is already current. *)
Lemma handleEvent_same_window idx evt t w :
  Name evt = "activewindowv2" → last (Args evt) = Some (currentWindowId t) →
  handleEvent idx evt t w = (w, Ok (Next t)).
Proof.
  intros Hn Hl. unfold handleEvent, bind, last_arg, ret. rewrite Hn, Hl. simpl.
  by rewrite String.eqb_refl.
Qed.

(** [activewindowv2] for another window whose layout is the current one. *)
Lemma handleEvent_same_layout idx evt t newWindowId w :
  Name evt = "activewindowv2" → last (Args evt) = Some newWindowId →
  newWindowId ≠ currentWindowId t →
  default defaultLayout (layoutMap t !! newWindowId) = currentLayout t →
  handleEvent idx evt t w =
  (w, Ok (Next (mkTracker (layoutMap t) newWindowId (currentLayout t)))).
Proof.
  intros Hn Hl Hw Ht. unfold handleEvent, bind, last_arg, ret. rewrite Hn, Hl. simpl.
  assert (String.eqb (currentWindowId t) newWindowId = false) as ->
    by (by apply String.eqb_neq).
  rewrite Ht. by rewrite Z.eqb_refl.
Qed.

(** [activewindowv2] for another window whose layout differs. *)
Lemma handleEvent_switch idx evt t newWindowId w :
  Name evt = "activewindowv2" → last (Args evt) = Some newWindowId →
  newWindowId ≠ currentWindowId t →
  default defaultLayout (layoutMap t !! newWindowId) ≠ currentLayout t →
  let target := default defaultLayout (layoutMap t !! newWindowId) in
  let t1 := mkTracker (layoutMap t) newWindowId (currentLayout t) in
  handleEvent idx evt t w =
  (set_ctl (hyprctl_switchxkblayout target (ctl w)).1 (emit (ExecSwitch target) w),
   Ok match (hyprctl_switchxkblayout target (ctl w)).2 with
      | None => Next t1
      | Some e => Return t1 (wrapError "failed to activate layout" e)
      end).
Proof.
  intros Hn Hl Hw Ht target t1. unfold handleEvent, bind, last_arg, ret.
  rewrite Hn, Hl. simpl.
  assert (String.eqb (currentWindowId t) newWindowId = false) as ->
    by (by apply String.eqb_neq).
  fold target. apply Z.eqb_neq in Ht. fold target in Ht. rewrite Ht.
  rewrite SwitchXKBLayout_run. by destruct (hyprctl_switchxkblayout target (ctl w)).2.
Qed.

(** A turn that ends with [Next] on an [activewindowv2] event leaves
    that event's window as the current one. *)
Lemma handleEvent_focus_current idx evt t t1 wid w w1 :
  Name evt = "activewindowv2" → last (Args evt) = Some wid →
  handleEvent idx evt t w = (w1, Ok (Next t1)) → currentWindowId t1 = wid.
Proof.
  intros Hn Hl. unfold handleEvent, bind, last_arg, ret. rewrite Hn, Hl. simpl.
  destruct (String.eqb_spec (currentWindowId t) wid) as [Heq|Hne].
  - by intros [= _ <-].
  - destruct (_ =? _); [by intros [= _ <-] |].
    rewrite SwitchXKBLayout_run.
    destruct (hyprctl_switchxkblayout _ _).2; [done | by intros [= _ <-]].
Qed.

(** C8: an [activewindowv2] event that carries the same window id as
    the [activewindowv2] event processed just before it sends no command
    and leaves the world and the tracker (current window, current layout,
    window map) as they were, whatever the tracker state before the pair. *)
Theorem duplicate_focus_is_noop idx (e1 e2 : Event) (wid : string) t t1 w w1 :
  Name e1 = "activewindowv2" → Name e2 = "activewindowv2" →
  last (Args e1) = Some wid → last (Args e2) = Some wid →
  handleEvent idx e1 t w = (w1, Ok (Next t1)) →
  handleEvent idx e2 t1 w1 = (w1, Ok (Next t1)).
Proof.
  intros Hn1 Hn2 Hl1 Hl2 H1.
  pose proof (handleEvent_focus_current _ _ _ _ _ _ _ Hn1 Hl1 H1) as Hc.
  rewrite <- Hc in Hl2.
  by rewrite (handleEvent_same_window idx e2 t1 w1 Hn2 Hl2).
Qed.

(** C3 (amended): on an [activewindowv2] event for a new window whose
    layout differs from the current one, the window becomes the current
    window and one switch command for that layout is sent; the current
    layout and the window map stay as they were whether the command
    succeeds or not, and a failure ends the loop with an error. *)
Theorem focus_new_window_switches idx evt t newWindowId w :
  Name evt = "activewindowv2" → last (Args evt) = Some newWindowId →
  newWindowId ≠ currentWindowId t →
  default defaultLayout (layoutMap t !! newWindowId) ≠ currentLayout t →
  let target := default defaultLayout (layoutMap t !! newWindowId) in
  let t1 := mkTracker (layoutMap t) newWindowId (currentLayout t) in
  handleEvent idx evt t w =
  (set_ctl (hyprctl_switchxkblayout target (ctl w)).1 (emit (ExecSwitch target) w),
   Ok match (hyprctl_switchxkblayout target (ctl w)).2 with
      | None => Next t1
      | Some e => Return t1 (wrapError "failed to activate layout" e)
      end).
Proof. apply handleEvent_switch. Qed.

End TrackerFacts.

(** ** The event loop on the end-to-end sequence *)

Section EndToEnd.

Context {St : Type} `{!Hyprctl St}.
Implicit Types (w : World St) (t : Tracker).

(** One turn of the loop that goes on. *)
Lemma eventLoop_step idx data rest evt t t' w w' :
  parseEvent data = Ok evt →
  handleEvent idx evt t (set_retry 0 (emit (ReadLine (Some data)) w)) = (w', Ok (Next t')) →
  eventLoop resetRetry idx (data :: rest) t w = eventLoop resetRetry idx rest t' w'.
Proof.
  intros Hp Hh. cbn [eventLoop]. unfold bind at 1. unfold act at 1. rewrite Hp.
  unfold bind at 1. unfold resetRetry at 1. unfold bind at 1. by rewrite Hh.
Qed.

(** Each turn of the loop is [client.ReadEvent()] on the open client,
    then the rest of the turn on the client it leaves. *)
Lemma eventLoop_ReadEvent (rr : M St unit) idx lines t w :
  eventLoop rr idx lines t w =
  match ReadEvent (mkClient false lines) w with
  | (w1, Ok (c, evt)) =>
      bind rr (λ _,
        bind (handleEvent idx evt t) (λ turn,
          match turn with
          | Next t' => eventLoop rr idx (reader c) t'
          | Return _ err => fail err
          end)) w1
  | (w1, Err e) => (w1, Err (wrapError "failed to read hyprland event" e))
  | (w1, Panicked p) => (w1, Panicked p)
  end.
Proof.
  destruct lines as [|data rest]; [done|].
  cbn [eventLoop]. unfold ReadEvent, bind at 1, act at 1. cbn [closed reader].
  by destruct (parseEvent data).
Qed.

Lemma eventLoop_nil idx t w :
  eventLoop resetRetry idx [] t w = (emit (ReadLine None) w, Err read_failed).
Proof. reflexivity. Qed.

Lemma handleEvent_switch_ok idx evt t newWindowId w :
  (∀ i s, (hyprctl_switchxkblayout i s).2 = None) →
  Name evt = "activewindowv2" → last (Args evt) = Some newWindowId →
  newWindowId ≠ currentWindowId t →
  default defaultLayout (layoutMap t !! newWindowId) ≠ currentLayout t →
  let target := default defaultLayout (layoutMap t !! newWindowId) in
  handleEvent idx evt t w =
  (set_ctl (hyprctl_switchxkblayout target (ctl w)).1 (emit (ExecSwitch target) w),
   Ok (Next (mkTracker (layoutMap t) newWindowId (currentLayout t)))).
Proof.
  intros Hok Hn Hl Hw Ht target.
  rewrite (handleEvent_switch idx evt t newWindowId w Hn Hl Hw Ht).
  fold target. by rewrite Hok.
Qed.

(** C1 (amended): with the table [{"en": 0, "us": 1}], the four events,
    the initial tracker and a controller that accepts every switch, the
    loop sends exactly two commands: switch-to-0 on the first focus of
    [W1] and switch-to-0 on the focus of [W2]; on the refocus of [W1]
    nothing is sent, because the current layout is still the [1] recorded
    by [activelayout>>us]. *)
Theorem end_to_end_two_switches w :
  (∀ i s, (hyprctl_switchxkblayout i s).2 = None) →
  ∃ w', eventLoop resetRetry en_us_table end_to_end_lines initial w = (w', Err read_failed) ∧
        trace w' = trace w ++
                   [ReadLine (Some "activewindowv2>>W1"); ExecSwitch 0;
                    ReadLine (Some "activelayout>>us");
                    ReadLine (Some "activewindowv2>>W2"); ExecSwitch 0;
                    ReadLine (Some "activewindowv2>>W1");
                    ReadLine None] ∧
        switches (trace w') = switches (trace w) ++ [0; 0].
Proof.
  intros Hok. unfold end_to_end_lines.
  eexists. split.
  - etrans.
    { eapply eventLoop_step; [reflexivity|].
      eapply (handleEvent_switch_ok _ _ _ "W1"); [done | reflexivity | reflexivity | done | done]. }
    etrans.
    { eapply eventLoop_step; [reflexivity|].
      eapply (handleEvent_activelayout _ _ _ "us"); [reflexivity | done | reflexivity]. }
    etrans.
    { eapply eventLoop_step; [reflexivity|].
      eapply (handleEvent_switch_ok _ _ _ "W2");
        [done | reflexivity | reflexivity | done | by vm_compute]. }
    etrans.
    { eapply eventLoop_step; [reflexivity|].
      eapply (handleEvent_same_layout _ _ _ "W1");
        [reflexivity | reflexivity | done | by vm_compute]. }
    apply eventLoop_nil.
  - assert (default defaultLayout (layoutMap initial !! "W1") = 0) as -> by done.
    simpl. rewrite lookup_insert_ne by done. rewrite lookup_empty. simpl.
    split; [by rewrite <- !app_assoc |].
    unfold switches. rewrite !omap_app. simpl. by rewrite <- !app_assoc, !app_nil_r.
Qed.

End EndToEnd.

(** C1 as stated fails: on the reference controller the run sends two
    commands, [0] and [0], not the three [0], [0], [1]. *)
Lemma end_to_end_not_three_switches :
  switches (trace (eventLoop resetRetry en_us_table end_to_end_lines initial
                             (world_of (Some "sig") [] sim_en_us)).1) = [0; 0] ∧
  switches (trace (eventLoop resetRetry en_us_table end_to_end_lines initial
                             (world_of (Some "sig") [] sim_en_us)).1) ≠ [0; 0; 1].
Proof. split; [by vm_compute | by vm_compute]. Qed.

Lemma end_to_end_two_switches_witness :
  (∀ i s, (hyprctl_switchxkblayout (St := Accepting) i s).2 = None) ∧
  ∃ w', eventLoop resetRetry en_us_table end_to_end_lines initial
                  (world_of (Some "sig") [] (mkAccepting 0)) = (w', Err read_failed) ∧
        trace w' = [] ++
                   [ReadLine (Some "activewindowv2>>W1"); ExecSwitch 0;
                    ReadLine (Some "activelayout>>us");
                    ReadLine (Some "activewindowv2>>W2"); ExecSwitch 0;
                    ReadLine (Some "activewindowv2>>W1");
                    ReadLine None] ∧
        switches (trace w') = [] ++ [0; 0].
Proof.
  split; [reflexivity|].
  apply (end_to_end_two_switches (world_of (Some "sig") [] (mkAccepting 0))).
  reflexivity.
Defined.

(** ** The tracker on the reference controller *)

(** C3 as stated fails.  After a switch that succeeds the current layout
    is not the target: it is still the sentinel [-1] while the command sent
    was for layout [0].  After a switch that fails the state is not the
    one before the event: the current window is already the new one. *)
Lemma switch_success_keeps_currentLayout :
  handleEvent en_us_table (mkEvent "activewindowv2" ["W1"]) initial
              (world_of (Some "sig") [] sim_en_us)
  = (emit (ExecSwitch 0) (world_of (Some "sig") [] sim_en_us),
     Ok (Next (mkTracker ∅ "W1" (-1)))) ∧
  currentLayout (mkTracker ∅ "W1" (-1)) ≠ 0 ∧
  handleEvent en_us_table (mkEvent "activewindowv2" ["W1"]) initial
              (world_of (Some "sig") [] sim_broken)
  = (emit (ExecSwitch 0) (world_of (Some "sig") [] sim_broken),
     Ok (Return (mkTracker ∅ "W1" (-1))
                (wrapError "failed to activate layout" (errorString "exit status 1")))) ∧
  mkTracker ∅ "W1" (-1) ≠ initial.
Proof.
  split; [by vm_compute|]. split; [done|]. split; [by vm_compute|].
  intros [=].
Qed.

Lemma focus_new_window_switches_witness :
  Name (mkEvent "activewindowv2" ["W1"]) = "activewindowv2" ∧
  last (Args (mkEvent "activewindowv2" ["W1"])) = Some "W1" ∧
  "W1" ≠ currentWindowId initial ∧
  default defaultLayout (layoutMap initial !! "W1") ≠ currentLayout initial ∧
  handleEvent en_us_table (mkEvent "activewindowv2" ["W1"]) initial
              (world_of (Some "sig") [] sim_en_us)
  = (emit (ExecSwitch 0) (world_of (Some "sig") [] sim_en_us),
     Ok (Next (mkTracker ∅ "W1" (-1)))).
Proof.
  split; [reflexivity|]. split; [reflexivity|]. split; [by vm_compute|].
  split; [by vm_compute|].
  etrans.
  - apply (focus_new_window_switches en_us_table (mkEvent "activewindowv2" ["W1"]) initial
             "W1" (world_of (Some "sig") [] sim_en_us));
      [reflexivity | reflexivity | by vm_compute | by vm_compute].
  - by vm_compute.
Defined.

Lemma duplicate_focus_is_noop_witness :
  handleEvent en_us_table (mkEvent "activewindowv2" ["W1"]) initial
              (world_of (Some "sig") [] sim_en_us)
  = (emit (ExecSwitch 0) (world_of (Some "sig") [] sim_en_us),
     Ok (Next (mkTracker ∅ "W1" (-1)))) ∧
  handleEvent en_us_table (mkEvent "activewindowv2" ["0x1"; "W1"]) (mkTracker ∅ "W1" (-1))
              (emit (ExecSwitch 0) (world_of (Some "sig") [] sim_en_us))
  = (emit (ExecSwitch 0) (world_of (Some "sig") [] sim_en_us),
     Ok (Next (mkTracker ∅ "W1" (-1)))).
Proof.
  split; [by vm_compute|].
  apply (duplicate_focus_is_noop en_us_table (mkEvent "activewindowv2" ["W1"])
           (mkEvent "activewindowv2" ["0x1"; "W1"]) "W1" initial (mkTracker ∅ "W1" (-1))
           (world_of (Some "sig") [] sim_en_us)
           (emit (ExecSwitch 0) (world_of (Some "sig") [] sim_en_us)));
    [reflexivity | reflexivity | reflexivity | reflexivity | by vm_compute].
Defined.

(** ** Layout discovery *)

(** Normalises the projections of a trace built from [emit]. *)
Ltac trace_simpl :=
  simpl; unfold switches, warnings, sleeps, dialled in *;
  rewrite ?omap_app; simpl; rewrite ?app_nil_r, <- ?app_assoc; simpl.

Section DiscoveryFacts.

Context {St : Type} `{!Hyprctl St}.
Implicit Types (w : World St).

Lemma devices_run w :
  devices w = (set_ctl (hyprctl_devices (ctl w)).1 (emit ExecDevices w),
               Ok (hyprctl_devices (ctl w)).2).
Proof. unfold devices. by destruct (hyprctl_devices (ctl w)). Qed.

(** One turn of the scan when the switch and the query succeed. *)
Lemma scan_step mainKb i l rest result a w s1 s2 response :
  hyprctl_switchxkblayout (Z.of_nat i) (ctl w) = (s1, None) →
  hyprctl_devices s1 = (s2, Decoded response) →
  scan mainKb i (l :: rest) result a w =
  scan mainKb (S i) rest
       (record_main mainKb i (Keyboards response) result a).1
       (record_main mainKb i (Keyboards response) result a).2
       (set_ctl s2 (emit ExecDevices (set_ctl s1 (emit (ExecSwitch (Z.of_nat i)) w)))).
Proof.
  intros Hs Hd. cbn [scan]. unfold bind at 1. rewrite SwitchXKBLayout_run, Hs. simpl.
  unfold bind at 1. rewrite devices_run. simpl. rewrite Hd. simpl.
  by destruct (record_main _ _ _ _ _).
Qed.

(** The scan when no response has a main keyboard: nothing is recorded. *)
Lemma scan_no_main (Inv : St → Prop) (n : nat) mainKb :
  AcceptsSwitches Inv n → ReportsNoMain Inv →
  ∀ shorts i result a w,
    Inv (ctl w) → (i + length shorts = n)%nat →
    ∃ w', scan mainKb i shorts result a w = (w', Ok (result, a)) ∧ Inv (ctl w') ∧
          switches (trace w') =
            switches (trace w) ++ (Z.of_nat <$> seq i (length shorts)) ∧
          warnings (trace w') = warnings (trace w).
Proof.
  intros Hsw Hq. induction shorts as [|l rest IH]; intros i result a w Hinv Hlen.
  - exists w. simpl. by rewrite app_nil_r.
  - simpl in Hlen. destruct (Hsw i _ Hinv ltac:(lia)) as (s1 & Hs & Hinv1).
    destruct (Hq _ Hinv1) as (s2 & response & Hd & Hinv2 & Hfind).
    rewrite (scan_step _ _ _ _ _ _ _ _ _ _ Hs Hd).
    unfold record_main. rewrite Hfind. simpl.
    destruct (IH (S i) result a
                 (set_ctl s2 (emit ExecDevices (set_ctl s1 (emit (ExecSwitch (Z.of_nat i)) w))))
                 Hinv2 ltac:(lia)) as (w' & Hrun & Hinv' & Htr & Hwarn).
    exists w'. split; [done|]. split; [done|]. split.
    + rewrite Htr. by trace_simpl.
    + rewrite Hwarn. by trace_simpl.
Qed.

(** C10: when no keyboard of any response is flagged main (and the query
    and the switches succeed), discovery takes the short-name list of the
    first keyboard, scans its [n] positions, and returns [n] empty
    strings; it finds no position to go back to, so it sends no command
    after the scan and logs the warning. *)
Theorem discovery_without_main_keyboard (Inv : St → Prop) w s' kb0 kbs :
  let n := length (GoStrings.Split (Layout kb0) ",") in
  AcceptsSwitches Inv n → ReportsNoMain Inv → Inv (ctl w) →
  hyprctl_devices (ctl w) = (s', Decoded (mkDevicesResponse (kb0 :: kbs))) →
  ∃ w', ReadLayouts w = (w', Ok (replicate n "")) ∧
        switches (trace w') = switches (trace w) ++ (Z.of_nat <$> seq 0 n) ∧
        warnings (trace w') = warnings (trace w) ++ [strange_layout].
Proof.
  intros n Hsw Hq Hinv Hd.
  destruct (Hq _ Hinv) as (s2 & response & Hd' & Hinv2 & Hfind).
  rewrite Hd in Hd'. injection Hd' as <- <-. cbn [Keyboards] in Hfind.
  unfold ReadLayouts, bind at 1. rewrite devices_run, Hd. cbn [fst snd Keyboards].
  rewrite Hfind. cbn [default]. fold n.
  destruct (scan_no_main Inv n kb0 Hsw Hq (GoStrings.Split (Layout kb0) ",") 0%nat
              (replicate n "") (-1) (set_ctl s' (emit ExecDevices w)) Hinv2 ltac:(done))
    as (w' & Hrun & Hinv' & Htr & Hwarn).
  unfold bind at 1. rewrite Hrun. simpl.
  eexists. split; [reflexivity|]. simpl. split.
  - trace_simpl. rewrite Htr. by trace_simpl.
  - trace_simpl. rewrite Hwarn. by trace_simpl.
Qed.

(** The scan against a controller with a main keyboard that reports the
    keymap of the position it is on: every position gets its keymap, and
    the index kept is the last one whose keymap is that of [mainKb]. *)
Lemma scan_main (Inv : St → Prop) (active : St → nat) (keymap : nat → string)
    (layout : string) (n : nat) mainKb :
  ReportsMain Inv active keymap layout → SwitchesTo Inv active n →
  ∀ shorts i result a w,
    Inv (ctl w) → (i + length shorts = n)%nat → length result = n →
    ∃ w' a',
      scan mainKb i shorts result a w =
        (w', Ok (take i result ++ (keymap <$> seq i (length shorts)), a')) ∧
      Inv (ctl w') ∧
      (shorts ≠ [] → active (ctl w') = (n - 1)%nat) ∧
      ((a' = a ∧ ∀ j, (i <= j < n)%nat → keymap j ≠ ActiveKeymap mainKb) ∨
       (∃ j, a' = Z.of_nat j ∧ (i <= j < n)%nat ∧ keymap j = ActiveKeymap mainKb ∧
             ∀ j', (j < j' < n)%nat → keymap j' ≠ ActiveKeymap mainKb)) ∧
      switches (trace w') = switches (trace w) ++ (Z.of_nat <$> seq i (length shorts)) ∧
      warnings (trace w') = warnings (trace w).
Proof.
  intros Hq Hsw. induction shorts as [|l rest IH]; intros i result a w Hinv Hlen Hres.
  - exists w, a. simpl in *. rewrite !app_nil_r.
    replace i with (length result) by lia. rewrite firstn_all.
    split; [done|]. split; [done|]. split; [done|]. split; [|done].
    left. split; [done | lia].
  - simpl in Hlen.
    destruct (Hsw i _ Hinv ltac:(lia)) as (s1 & Hs & Hinv1 & Hact1).
    destruct (Hq _ Hinv1) as (s2 & response & kb & Hd & Hinv2 & Hact2 & Hfind & _ & Hkm).
    rewrite (scan_step _ _ _ _ _ _ _ _ _ _ Hs Hd).
    unfold record_main. rewrite Hfind. cbn [fst snd]. rewrite Hkm, Hact1.
    set (a1 := if String.eqb (keymap i) (ActiveKeymap mainKb) then Z.of_nat i else a).
    set (w2 := set_ctl s2 _).
    destruct (IH (S i) (<[i := keymap i]> result) a1 w2 Hinv2 ltac:(lia)
                 ltac:(by rewrite length_insert))
      as (w' & a' & Hrun & Hinv' & Hlast & Hidx & Htr & Hwarn).
    exists w', a'. split; [|split; [done|split; [|split; [|split]]]].
    + rewrite Hrun. do 3 f_equal.
      rewrite (take_S_r _ _ (keymap i)) by (apply list_lookup_insert_eq; lia).
      rewrite take_insert_ge by lia. by rewrite <- app_assoc.
    + intros _. destruct rest as [|l' rest'].
      * simpl in Hrun. injection Hrun as <- _. subst w2. simpl in *.
        rewrite Hact2, Hact1. lia.
      * by apply Hlast.
    + destruct Hidx as [[-> Hnone] | (j & -> & Hj & Hk & Hafter)].
      * subst a1. destruct (String.eqb_spec (keymap i) (ActiveKeymap mainKb)) as [Heq|Hne].
        -- right. exists i. split; [done|]. split; [lia|]. split; [done|].
           intros j' Hj'. apply Hnone. lia.
        -- left. split; [done|]. intros j Hj.
           destruct (decide (j = i)) as [->|]; [done | apply Hnone; lia].
      * right. exists j. split; [done|]. split; [lia|]. done.
    + rewrite Htr. subst w2. by trace_simpl.
    + rewrite Hwarn. subst w2. by trace_simpl.
Qed.

(** C5 (amended): against a controller whose every response has a main
    keyboard reporting the [n]-entry short-name list and the keymap of the
    position it is on, and whose switches to the positions below [n]
    succeed, discovery returns the [n] keymap names in position order.
    It then switches back to the last position whose keymap name is the
    one seen before the scan; that is the position before the scan when it
    is below [n] and the keymap names are pairwise distinct.  When no
    position has that keymap name the device stays on the last position,
    the warning is logged and the list is still returned. *)
Theorem discovery_round_trip (Inv : St → Prop) (active : St → nat)
    (keymap : nat → string) (layout : string) w :
  let n := length (GoStrings.Split layout ",") in
  let before := keymap (active (ctl w)) in
  ReportsMain Inv active keymap layout → SwitchesTo Inv active n → Inv (ctl w) →
  ∃ w', ReadLayouts w = (w', Ok (keymap <$> seq 0 n)) ∧
        length (keymap <$> seq 0 n) = n ∧
        (∀ j, (j < n)%nat → keymap j = before →
              (∀ j', (j < j' < n)%nat → keymap j' ≠ before) →
              active (ctl w') = j ∧
              switches (trace w') =
                switches (trace w) ++ (Z.of_nat <$> seq 0 n) ++ [Z.of_nat j] ∧
              warnings (trace w') = warnings (trace w)) ∧
        ((active (ctl w) < n)%nat →
         (∀ j j', (j < n)%nat → (j' < n)%nat → keymap j = keymap j' → j = j') →
         active (ctl w') = active (ctl w)) ∧
        ((∀ j, (j < n)%nat → keymap j ≠ before) →
         active (ctl w') = (n - 1)%nat ∧
         switches (trace w') = switches (trace w) ++ (Z.of_nat <$> seq 0 n) ∧
         warnings (trace w') = warnings (trace w) ++ [strange_layout]).
Proof.
  intros n before Hq Hsw Hinv.
  destruct (Hq _ Hinv) as (s1 & response & kb & Hd & Hinv1 & Hact1 & Hfind & Hlay & Hkm).
  fold before in Hkm.
  assert (n ≠ 0%nat) as Hn.
  { unfold n. pose proof (GoStringsFacts.Split_nonempty layout ",").
    by destruct (GoStrings.Split layout ","). }
  unfold ReadLayouts, bind at 1. rewrite devices_run, Hd. cbn [fst snd].
  destruct (Keyboards response) as [|kb0 kbs] eqn:Hkbs; [done|].
  rewrite Hfind. change (default kb0 (Some kb)) with kb. rewrite Hlay. fold n.
  destruct (scan_main Inv active keymap layout n kb Hq Hsw
              (GoStrings.Split layout ",") 0%nat (replicate n "") (-1)
              (set_ctl s1 (emit ExecDevices w)) Hinv1 ltac:(done)
              ltac:(by rewrite length_replicate))
    as (w1 & a' & Hrun & Hinv' & Hlast & Hidx & Htr & Hwarn).
  rewrite Hkm in Hidx. fold n in Hrun, Htr. rewrite take_0 in Hrun. cbn [app] in Hrun.
  unfold bind at 1. rewrite Hrun. cbn [fst snd].
  assert (active (ctl w1) = (n - 1)%nat) as Hat.
  { apply Hlast. intros Hnil. unfold n in Hn. by rewrite Hnil in Hn. }
  assert (length (keymap <$> seq 0 n) = n) as Hlen by (by rewrite length_fmap, length_seq).
  destruct Hidx as [[-> Hnone] | (j0 & -> & Hj0 & Hk0 & Hafter)].
  - (* no position has the keymap seen before the scan *)
    simpl. eexists. split; [reflexivity|]. split; [done|]. split; [|split].
    + intros j Hj Hk _. exfalso. by apply (Hnone j ltac:(lia)).
    + intros Hb _. exfalso. by apply (Hnone (active (ctl w)) ltac:(lia)).
    + intros _. split; [done|]. split.
      * trace_simpl. rewrite Htr. by trace_simpl.
      * trace_simpl. rewrite Hwarn. by trace_simpl.
  - (* [j0] is the last position with that keymap *)
    assert ((Z.of_nat j0 =? -1) = false) as -> by lia.
    destruct (Hsw j0 _ Hinv' ltac:(lia)) as (s2 & Hs2 & Hinv2 & Hact2).
    unfold bind at 1. rewrite SwitchXKBLayout_run, Hs2. simpl.
    assert (∀ j, (j < n)%nat → keymap j = before →
                 (∀ j', (j < j' < n)%nat → keymap j' ≠ before) → j = j0) as Huniq.
    { intros j Hj Hk Haft. destruct (Nat.lt_total j j0) as [Hlt|[->|Hgt]]; [|done|].
      - exfalso. by apply (Haft j0 ltac:(lia)).
      - exfalso. by apply (Hafter j ltac:(lia)). }
    eexists. split; [reflexivity|]. split; [done|]. split; [|split].
    + intros j Hj Hk Haft. rewrite (Huniq j Hj Hk Haft). simpl. split; [done|]. split.
      * trace_simpl. rewrite Htr. by trace_simpl.
      * trace_simpl. rewrite Hwarn. by trace_simpl.
    + intros Hb Hinj. simpl. rewrite Hact2. apply Hinj; [lia | done | done].
    + intros Hnone. exfalso. by apply (Hnone j0 ltac:(lia)).
Qed.

End DiscoveryFacts.

(** ** Discovery on the reference controller *)

(** C9 (code defect): a response with an empty keyboard list makes
    discovery panic on [response.Keyboards[0]]; no error value is
    returned.  The panic goes through [processHyprlandEvents] and ends
    [main]. *)
Theorem discovery_panics_without_keyboards :
  ReadLayouts (world_of (Some "sig") [] sim_none)
  = (emit ExecDevices (world_of (Some "sig") [] sim_none),
     Panicked (IndexOutOfRange 0 0)) ∧
  (main 1 (world_of (Some "sig") [] sim_none)).2 = Some (IndexOutOfRange 0 0).
Proof. split; by vm_compute. Qed.

(** C5 as stated fails.  With two positions that share a keymap name the
    device was on position [0] and ends on position [1].  With a keyboard
    that is not flagged main the list returned holds empty strings, not
    the keymap names the controller reports on the two positions, and the
    device is left on position [1]. *)
Lemma discovery_does_not_always_restore :
  ((ReadLayouts (world_of (Some "sig") [] sim_twins)).2
     = Ok ["English (US)"; "English (US)"] ∧
   sim_active sim_twins = 0%nat ∧
   sim_active (ctl (ReadLayouts (world_of (Some "sig") [] sim_twins)).1) = 1%nat) ∧
  ((ReadLayouts (world_of (Some "sig") [] sim_no_main)).2 = Ok [""; ""] ∧
   ActiveKeymap <$> Keyboards (mkDevicesResponse
                                 (sim_report 0 <$> sim_keyboards sim_no_main))
     = ["English (US)"] ∧
   ActiveKeymap <$> Keyboards (mkDevicesResponse
                                 (sim_report 1 <$> sim_keyboards sim_no_main))
     = ["German"] ∧
   sim_active sim_no_main = 0%nat ∧
   sim_active (ctl (ReadLayouts (world_of (Some "sig") [] sim_no_main)).1) = 1%nat).
Proof. repeat split; by vm_compute. Qed.

(** The reference controller meets the assumptions of the discovery
    statements as long as its keyboards stay the same. *)
Lemma sim_three_reports :
  ReportsMain (λ s, sim_keyboards s = sim_keyboards sim_three) sim_active
              (λ j, nth j ["English (US)"; "German"; "French"] "") "us,de,fr".
Proof.
  intros [kbs a] Hinv. simpl in Hinv. subst kbs.
  eexists _, _, _. split; [reflexivity|]. by repeat split.
Qed.

Lemma sim_three_switches :
  SwitchesTo (λ s, sim_keyboards s = sim_keyboards sim_three) sim_active 3.
Proof.
  intros i [kbs a] Hinv Hi. simpl in Hinv. subst kbs.
  exists (mkSim (sim_keyboards sim_three) i). split; [|done].
  destruct i as [|[|[|i]]]; [reflexivity | reflexivity | reflexivity | lia].
Qed.

Lemma discovery_round_trip_witness :
  ∃ w', ReadLayouts (world_of (Some "sig") [] sim_three)
        = (w', Ok ["English (US)"; "German"; "French"]) ∧
        sim_active (ctl w') = sim_active sim_three.
Proof.
  destruct (discovery_round_trip (λ s, sim_keyboards s = sim_keyboards sim_three)
              sim_active (λ j, nth j ["English (US)"; "German"; "French"] "") "us,de,fr"
              (world_of (Some "sig") [] sim_three)
              sim_three_reports sim_three_switches eq_refl)
    as (w' & Hrun & _ & _ & Hback & _).
  exists w'. split; [exact Hrun|]. apply Hback.
  - simpl. lia.
  - intros j j' Hj Hj'. change (length (GoStrings.Split "us,de,fr" ",")) with 3%nat in *.
    destruct j as [|[|[|j]]], j' as [|[|[|j']]]; simpl; (done || lia).
Defined.

Lemma sim_no_main_reports :
  ReportsNoMain (λ s, sim_keyboards s = sim_keyboards sim_no_main).
Proof.
  intros [kbs a] Hinv. simpl in Hinv. subst kbs.
  eexists _, _. split; [reflexivity|]. by split.
Qed.

Lemma sim_no_main_switches :
  AcceptsSwitches (λ s, sim_keyboards s = sim_keyboards sim_no_main) 2.
Proof.
  intros i [kbs a] Hinv Hi. simpl in Hinv. subst kbs.
  exists (mkSim (sim_keyboards sim_no_main) i). split; [|done].
  destruct i as [|[|i]]; [reflexivity | reflexivity | lia].
Qed.

Lemma discovery_without_main_keyboard_witness :
  ∃ w', ReadLayouts (world_of (Some "sig") [] sim_no_main) = (w', Ok [""; ""]) ∧
        switches (trace w') = [] ++ [0; 1] ∧
        warnings (trace w') = [] ++ [strange_layout].
Proof.
  apply (discovery_without_main_keyboard
           (λ s, sim_keyboards s = sim_keyboards sim_no_main)
           (world_of (Some "sig") [] sim_no_main) sim_no_main
           (sim_report 0 (mkSimKeyboard "us,de" ["English (US)"; "German"] false "kbd")) []
           sim_no_main_switches sim_no_main_reports eq_refl eq_refl).
Defined.

(** ** The supervisor *)

Section SupervisorFacts.

Context {St : Type} `{!Hyprctl St}.
Implicit Types (w : World St).

Lemma trace_emit e w : trace (emit e w) = trace w ++ [e].
Proof. done. Qed.
Lemma trace_set_retry n w : trace (set_retry n w) = trace w.
Proof. done. Qed.
Lemma trace_set_ctl s w : trace (set_ctl s w) = trace w.
Proof. done. Qed.
Lemma retry_emit e w : retry (emit e w) = retry w.
Proof. done. Qed.
Lemma retry_set_ctl s w : retry (set_ctl s w) = retry w.
Proof. done. Qed.

(** *** What an attempt leaves in the trace and in the retry counter *)

Lemma Frame_refl w : Frame w w.
Proof. split; [done|]. exists []. by rewrite app_nil_r. Qed.

Lemma Frame_trans w1 w2 w3 : Frame w1 w2 → Frame w2 w3 → Frame w1 w3.
Proof.
  intros [Hr1 (tr1 & Ht1 & Hi1)] [Hr2 (tr2 & Ht2 & Hi2)]. split; [congruence|].
  exists (tr1 ++ tr2). rewrite Ht2, Ht1, <- app_assoc. split; [done|].
  rewrite forallb_app. by rewrite Hi1, Hi2.
Qed.

Lemma Frame_emit e w : inert e = true → Frame w (emit e w).
Proof. intros He. split; [done|]. exists [e]. simpl. by rewrite He. Qed.

Lemma Frame_set_ctl s w : Frame w (set_ctl s w).
Proof. split; [done|]. exists []. simpl. by rewrite app_nil_r. Qed.

Lemma Framed_ret {A} (a : A) : Framed (St := St) (ret a).
Proof. intros w w' r [= <- _]. apply Frame_refl. Qed.

Lemma Framed_fail {A} (e : error) : Framed (St := St) (A := A) (fail e).
Proof. intros w w' r [= <- _]. apply Frame_refl. Qed.

Lemma Framed_bind {A B} (m : M St A) (k : A → M St B) :
  Framed m → (∀ a, Framed (k a)) → Framed (bind m k).
Proof.
  intros Hm Hk w w' r. unfold bind. destruct (m w) as [w1 [a|e|p]] eqn:Hw.
  - intros Hr. eapply Frame_trans; [by eapply Hm | by eapply Hk].
  - intros [= <- _]. by eapply Hm.
  - intros [= <- _]. by eapply Hm.
Qed.

Lemma Framed_wrapping {A} msg (m : M St A) : Framed m → Framed (wrapping msg m).
Proof.
  intros Hm w w' r. unfold wrapping. destruct (m w) as [w1 [a|e|p]] eqn:Hw;
    intros [= <- _]; by eapply Hm.
Qed.

Lemma Framed_act e : inert e = true → Framed (St := St) (act e).
Proof. intros He w w' r [= <- _]. by apply Frame_emit. Qed.

Lemma Framed_SwitchXKBLayout i : Framed (SwitchXKBLayout i).
Proof.
  intros w w' r. rewrite SwitchXKBLayout_run. intros [= <- _].
  eapply Frame_trans; [by apply (Frame_emit (ExecSwitch i)) | apply Frame_set_ctl].
Qed.

Lemma Framed_devices : Framed devices.
Proof.
  intros w w' r. rewrite devices_run. intros [= <- _].
  eapply Frame_trans; [by apply (Frame_emit ExecDevices) | apply Frame_set_ctl].
Qed.

Lemma Framed_scan mainKb shorts : ∀ i result a, Framed (scan mainKb i shorts result a).
Proof.
  induction shorts as [|l rest IH]; intros i result a; cbn [scan].
  - apply Framed_ret.
  - apply Framed_bind; [apply Framed_SwitchXKBLayout|].
    intros [err|]; [apply Framed_fail|].
    apply Framed_bind; [apply Framed_devices|].
    intros [err|err|response]; [apply Framed_fail | apply Framed_fail |].
    destruct (record_main _ _ _ _ _). apply IH.
Qed.

Lemma Framed_ReadLayouts : Framed ReadLayouts.
Proof.
  unfold ReadLayouts. apply Framed_bind; [apply Framed_devices|].
  intros [err|err|response]; [apply Framed_fail | apply Framed_fail |].
  destruct (Keyboards response) as [|kb0 kbs].
  - intros w w' r [= <- _]. apply Frame_refl.
  - apply Framed_bind; [apply Framed_scan|].
    intros [result a]. destruct (a =? -1).
    + apply Framed_bind; [by apply Framed_act | intros; apply Framed_ret].
    + apply Framed_bind; [apply Framed_SwitchXKBLayout|].
      intros [err|]; [apply Framed_fail | apply Framed_ret].
Qed.

Lemma Framed_last_arg evt : Framed (St := St) (last_arg evt).
Proof.
  intros w w' r. unfold last_arg. destruct (last (Args evt)); intros [= <- _];
    apply Frame_refl.
Qed.

Lemma Framed_handleEvent idx evt t : Framed (handleEvent idx evt t).
Proof.
  unfold handleEvent. destruct (String.eqb (Name evt) "activelayout").
  - destruct (String.eqb (currentWindowId t) ""); [apply Framed_ret|].
    apply Framed_bind; [apply Framed_last_arg | intros; apply Framed_ret].
  - destruct (String.eqb (Name evt) "activewindowv2"); [|apply Framed_ret].
    apply Framed_bind; [apply Framed_last_arg|]. intros newWindowId.
    destruct (String.eqb _ _); [apply Framed_ret|].
    destruct (_ =? _); [apply Framed_ret|].
    apply Framed_bind; [apply Framed_SwitchXKBLayout|].
    intros [err|]; apply Framed_ret.
Qed.

Lemma Framed_NewClient : Framed (St := St) NewClient.
Proof.
  intros w w' r. unfold NewClient.
  destruct (env_signature w); [|intros [= <- _]; apply Frame_refl].
  destruct (current_user w); [intros [= <- _]; apply Frame_refl|].
  assert (∀ p, Frame w (next_dial (emit (Dial p) w))) as Hd.
  { intros p. split; [done|]. by exists [Dial p]. }
  destruct (dials w (ndials w)); intros [= <- _]; apply Hd.
Qed.

Lemma Attempt_of_Frame w w' : Frame w w' → Attempt w w'.
Proof.
  intros [Hr (tr & Ht & Hi)]. exists tr. split; [done|].
  assert (forallb quiet tr = true ∧ existsb is_event tr = false) as [-> ->]; [|done].
  clear Ht. induction tr as [|e tr IH]; [done|]. simpl in *.
  apply andb_true_iff in Hi as [He Hi]. destruct (IH Hi) as [-> ->].
  by destruct e as [| | | | | |[]].
Qed.


Lemma Attempt_trans w1 w2 w3 : Attempt w1 w2 → Attempt w2 w3 → Attempt w1 w3.
Proof.
  intros (tr1 & Ht1 & Hq1 & Hr1) (tr2 & Ht2 & Hq2 & Hr2).
  exists (tr1 ++ tr2). rewrite Ht2, Ht1, <- app_assoc. split; [done|].
  rewrite forallb_app, existsb_app, Hq1, Hq2, Hr2, Hr1. split; [done|].
  by destruct (existsb is_event tr1), (existsb is_event tr2).
Qed.

Lemma Attempted_of_Framed {A} (m : M St A) : Framed m → Attempted m.
Proof. intros Hm w w' r Hr. apply Attempt_of_Frame. by eapply Hm. Qed.

Lemma Attempted_bind {A B} (m : M St A) (k : A → M St B) :
  Attempted m → (∀ a, Attempted (k a)) → Attempted (bind m k).
Proof.
  intros Hm Hk w w' r. unfold bind. destruct (m w) as [w1 [a|e|p]] eqn:Hw.
  - intros Hr. eapply Attempt_trans; [by eapply Hm | by eapply Hk].
  - intros [= <- _]. by eapply Hm.
  - intros [= <- _]. by eapply Hm.
Qed.

(** The event loop: the counter is zero as soon as one event was read. *)
Lemma Attempted_eventLoop idx lines : ∀ t, Attempted (eventLoop resetRetry idx lines t).
Proof.
  induction lines as [|data rest IH]; intros t w w' r.
  - rewrite eventLoop_nil. intros [= <- _]. by exists [ReadLine None].
  - cbn [eventLoop]. unfold bind at 1. unfold act at 1.
    destruct (parseEvent data) as [evt|e|p] eqn:Hp.
    + unfold bind at 1. unfold resetRetry at 1. intros Hr.
      apply (Attempt_trans _ (set_retry 0 (emit (ReadLine (Some data)) w))).
      { exists [ReadLine (Some data)]. simpl. by rewrite Hp. }
      revert Hr. apply Attempted_bind.
      * apply Attempted_of_Framed, Framed_handleEvent.
      * intros [t'|t' err]; [apply IH | apply Attempted_of_Framed, Framed_fail].
    + intros [= <- _]. exists [ReadLine (Some data)]. simpl. by rewrite Hp.
    + intros [= <- _]. exists [ReadLine (Some data)]. simpl. by rewrite Hp.
Qed.

Lemma Attempted_processHyprlandEvents : Attempted (processHyprlandEvents resetRetry).
Proof.
  intros w w' r. unfold processHyprlandEvents.
  destruct (NewClient w) as [w1 [client|e|p]] eqn:Hc.
  - set (body := bind _ _). destruct (body w1) as [w2 r2] eqn:Hb. intros [= <- _].
    apply (Attempt_trans _ w1); [apply Attempt_of_Frame; by eapply Framed_NewClient|].
    apply (Attempt_trans _ w2); [|by apply Attempt_of_Frame, (Frame_emit CloseSock)].
    revert Hb. apply Attempted_bind.
    + apply Attempted_of_Framed, Framed_wrapping, Framed_ReadLayouts.
    + intros layouts. apply Attempted_eventLoop.
  - intros [= <- _]. apply Attempt_of_Frame. by eapply Framed_NewClient.
  - intros [= <- _]. apply Attempt_of_Frame. by eapply Framed_NewClient.
Qed.

Lemma consecutive_failures_app k tr1 tr2 :
  consecutive_failures k (tr1 ++ tr2)
  = consecutive_failures (consecutive_failures k tr1) tr2.
Proof. revert k. induction tr1 as [|e tr1 IH]; intros k; simpl; [done | apply IH]. Qed.

Lemma consecutive_failures_quiet k tr :
  forallb quiet tr = true →
  consecutive_failures k tr = if existsb is_event tr then 0%nat else k.
Proof.
  revert k. induction tr as [|e tr IH]; intros k Hq; [done|]. simpl in *.
  apply andb_true_iff in Hq as [He Hq]. rewrite IH by done.
  destruct (is_event e) eqn:Hev; simpl.
  - by destruct (existsb is_event tr).
  - by destruct e as [| | | | | |[]].
Qed.

(** *** The backoff schedule *)

Lemma sleeps_quiet (tr : list Effect) : forallb quiet tr = true → sleeps tr = [].
Proof.
  induction tr as [|e tr IH]; [done|]. simpl. intros [He Hq]%andb_true_iff.
  specialize (IH Hq). unfold sleeps in *. destruct e; simpl in *; done.
Qed.

(** The counter [retry] is the number of failed attempts in a row: this
    holds when [main] starts and again after every turn that goes on. *)
Lemma main_turn_keeps_count w w' :
  retry w = consecutive_failures 0 (trace w) →
  main_turn w = (w', None) →
  retry w' = consecutive_failures 0 (trace w').
Proof.
  intros Hinv. unfold main_turn.
  destruct (processHyprlandEvents resetRetry w) as [w1 [u|err|p]] eqn:Hrun; [| |done].
  - intros [= <-].
    destruct (Attempted_processHyprlandEvents _ _ _ Hrun) as (tr & Ht & Hq & Hr).
    by rewrite Ht, consecutive_failures_app, <- Hinv, consecutive_failures_quiet.
  - destruct (Attempted_processHyprlandEvents _ _ _ Hrun) as (tr & Ht & Hq & Hr).
    rewrite retry_emit. destruct (_ <=? _)%nat; [done|].
    destruct (retryWait !! retry w1) as [d|]; [|done]. intros [= <-].
    cbn [retry set_retry]. repeat (rewrite trace_emit || rewrite trace_set_retry).
    rewrite Ht, !consecutive_failures_app, <- Hinv, (consecutive_failures_quiet _ tr) by done.
    simpl. by rewrite Hr.
Qed.

Lemma main_loop_keeps_count (fuel : nat) w w' :
  retry w = consecutive_failures 0 (trace w) →
  main_loop fuel w = (w', None) →
  retry w' = consecutive_failures 0 (trace w').
Proof.
  revert w. induction fuel as [|fuel IH]; intros w Hinv; cbn [main_loop].
  - by intros [= <-].
  - destruct (main_turn w) as [w1 [p|]] eqn:Ht; [done|].
    apply IH. by eapply main_turn_keeps_count.
Qed.

(** One turn of [main] whose attempt fails.  Let [k] be the number of
    failed attempts in a row, this one included, since [main] started or
    since the last event was read.  If [k] is within the budget of four,
    [main] waits the [k]-th value of 0.5s, 1s, 2s, 4s and goes round
    again; otherwise it panics with the error and does not wait.  [k] is
    one as soon as the failed attempt has read an event. *)
Theorem backoff_follows_consecutive_failures w w1 err :
  retry w = consecutive_failures 0 (trace w) →
  processHyprlandEvents resetRetry w = (w1, Err err) →
  ∃ tr w2 result,
    trace w1 = trace w ++ tr ∧
    main_turn w = (w2, result) ∧
    retryWait = [500000000; 1000000000; 2000000000; 4000000000] ∧
    let k := consecutive_failures 0 (trace w1 ++ [Log LevelError (Error err)]) in
    k = S (if existsb is_event tr then 0%nat else consecutive_failures 0 (trace w)) ∧
    match retryWait !! (k - 1)%nat with
    | Some d =>
        result = None ∧
        trace w2 = trace w1 ++ failed_attempt err d ∧
        sleeps (trace w2) = sleeps (trace w) ++ [d] ∧
        retry w2 = consecutive_failures 0 (trace w2)
    | None =>
        result = Some (PanicError err) ∧
        trace w2 = trace w1 ++ [Log LevelError (Error err)] ∧
        sleeps (trace w2) = sleeps (trace w)
    end.
Proof.
  intros Hinv Hrun.
  destruct (Attempted_processHyprlandEvents _ _ _ Hrun) as (tr & Ht & Hq & Hr).
  pose proof (sleeps_quiet _ Hq) as Hsl.
  assert (consecutive_failures 0 (trace w1 ++ [Log LevelError (Error err)])
          = S (retry w1)) as Hk.
  { rewrite Ht, !consecutive_failures_app, <- Hinv, (consecutive_failures_quiet _ tr) by done.
    simpl. by rewrite Hr. }
  exists tr. unfold main_turn. rewrite Hrun, retry_emit.
  destruct (length retryWait <=? retry w1)%nat eqn:Hl.
  - apply Nat.leb_le in Hl. eexists _, _. split; [done|]. split; [reflexivity|].
    split; [reflexivity|]. cbn zeta. rewrite Hk, Hr, <- Hinv. split; [done|].
    cbn [Nat.sub]. rewrite Nat.sub_0_r, <- Hr, (lookup_ge_None_2 _ _ Hl).
    split; [done|]. split; [done|].
    rewrite trace_emit, Ht. unfold sleeps in *. rewrite !omap_app, Hsl. simpl.
    by rewrite !app_nil_r.
  - apply Nat.leb_gt in Hl. destruct (lookup_lt_is_Some_2 _ _ Hl) as [d Hd].
    rewrite Hd. eexists _, _. split; [done|]. split; [reflexivity|].
    split; [reflexivity|]. cbn zeta. rewrite Hk, Hr, <- Hinv. split; [done|].
    cbn [Nat.sub]. rewrite Nat.sub_0_r, <- Hr, Hd.
    split; [done|]. repeat (rewrite trace_emit || rewrite trace_set_retry).
    split; [by rewrite <- !app_assoc|]. split.
    + rewrite Ht. unfold sleeps in *. rewrite !omap_app, Hsl. simpl.
      by rewrite !app_nil_r.
    + cbn [retry set_retry]. rewrite !retry_emit.
      rewrite !consecutive_failures_app, Ht, consecutive_failures_app, <- Hinv,
        (consecutive_failures_quiet _ tr) by done.
      simpl. by rewrite Hr.
Qed.

Lemma attempt_without_signature (rr : M St unit) w :
  env_signature w = None → processHyprlandEvents rr w = (w, Err no_signature).
Proof. intros He. unfold processHyprlandEvents, NewClient. by rewrite He. Qed.

(** One turn of [main] on such a world. *)
Lemma main_turn_without_signature w :
  env_signature w = None →
  main_turn w =
  match retryWait !! retry w with
  | Some d =>
      (set_retry (S (retry w))
         (emit (Sleep d) (emit (Log LevelInfo "Waiting for recover")
                               (emit (Log LevelError (Error no_signature)) w))), None)
  | None => (emit (Log LevelError (Error no_signature)) w, Some (PanicError no_signature))
  end.
Proof.
  intros He. unfold main_turn. rewrite (attempt_without_signature _ _ He).
  cbn [retry emit].
  destruct (length retryWait <=? retry w)%nat eqn:Hl.
  - apply Nat.leb_le in Hl. by rewrite (lookup_ge_None_2 _ _ Hl).
  - apply Nat.leb_gt in Hl. by destruct (lookup_lt_is_Some_2 _ _ Hl) as [d ->].
Qed.

(** C7 (amended): a missing session signature makes the attempt fail
    before any dial, and [main] treats that failure like any other: it
    waits 0.5s, 1s, 2s and 4s, trying again after each wait, and panics
    with the error on the fifth failure.  No command is sent. *)
Theorem missing_signature_is_retried w (fuel : nat) :
  env_signature w = None → (5 <= fuel)%nat →
  ∃ w', main fuel w = (w', Some (PanicError no_signature)) ∧
        trace w' = trace w ++ concat (failed_attempt no_signature <$> retryWait)
                           ++ [Log LevelError (Error no_signature)] ∧
        sleeps (trace w') = sleeps (trace w) ++ retryWait ∧
        dialled (trace w') = dialled (trace w) ∧
        switches (trace w') = switches (trace w).
Proof.
  intros He Hf. do 5 (destruct fuel as [|fuel]; [lia|]). clear Hf.
  unfold main.
  do 4 (cbn [main_loop]; rewrite main_turn_without_signature by done;
        cbn [retry set_retry emit lookup list_lookup retryWait]).
  cbn [main_loop]. rewrite main_turn_without_signature by done.
  cbn [retry set_retry emit lookup list_lookup retryWait].
  eexists. split; [reflexivity|].
  repeat (rewrite trace_emit || rewrite trace_set_retry).
  set (e := Error no_signature).
  split; [by rewrite <- !app_assoc|].
  unfold sleeps, dialled, switches. rewrite !omap_app. cbn [omap].
  rewrite !app_nil_r, <- !app_assoc. done.
Qed.

End SupervisorFacts.

(** C7 as stated fails: without the signature the first turn of [main]
    does not end the process; it waits 0.5s and goes round again. *)
Lemma missing_signature_is_not_fatal :
  (main_turn (world_of None [] sim_en_us)).2 = None ∧
  sleeps (trace (main_turn (world_of None [] sim_en_us)).1) = [500 * Millisecond] ∧
  (main 4 (world_of None [] sim_en_us)).2 = None.
Proof. repeat split; by vm_compute. Qed.

Lemma missing_signature_is_retried_witness :
  ∃ w', main 5 (world_of None [] sim_en_us) = (w', Some (PanicError no_signature)) ∧
        trace w' = [] ++ concat (failed_attempt no_signature <$> retryWait)
                      ++ [Log LevelError (Error no_signature)] ∧
        sleeps (trace w') = [] ++ retryWait ∧
        dialled (trace w') = [] ∧
        switches (trace w') = [].
Proof.
  apply (missing_signature_is_retried (world_of None [] sim_en_us) 5); [reflexivity | lia].
Defined.

(** An attempt that reads one event and then loses the connection,
    from a fresh start: the wait is the first value. *)
Lemma backoff_follows_consecutive_failures_witness :
  let w := world_of (Some "sig") ["activewindowv2>>W1"] sim_en_us in
  let w1 := (processHyprlandEvents resetRetry w).1 in
  retry w = consecutive_failures 0 (trace w) ∧
  processHyprlandEvents resetRetry w = (w1, Err read_failed) ∧
  ∃ tr w2 result,
    trace w1 = trace w ++ tr ∧
    main_turn w = (w2, result) ∧
    retryWait = [500000000; 1000000000; 2000000000; 4000000000] ∧
    let k := consecutive_failures 0 (trace w1 ++ [Log LevelError (Error read_failed)]) in
    k = S (if existsb is_event tr then 0%nat else consecutive_failures 0 (trace w)) ∧
    match retryWait !! (k - 1)%nat with
    | Some d =>
        result = None ∧
        trace w2 = trace w1 ++ failed_attempt read_failed d ∧
        sleeps (trace w2) = sleeps (trace w) ++ [d] ∧
        retry w2 = consecutive_failures 0 (trace w2)
    | None =>
        result = Some (PanicError read_failed) ∧
        trace w2 = trace w1 ++ [Log LevelError (Error read_failed)] ∧
        sleeps (trace w2) = sleeps (trace w)
    end.
Proof.
  intros w w1. split; [reflexivity|]. split; [by vm_compute|].
  apply (backoff_follows_consecutive_failures w w1 read_failed);
    [reflexivity | by vm_compute].
Defined.

Example backoff_after_event :
  (main_turn (world_of (Some "sig") ["activewindowv2>>W1"] sim_en_us)).2 = None ∧
  sleeps (trace (main_turn (world_of (Some "sig") ["activewindowv2>>W1"] sim_en_us)).1)
  = [500 * Millisecond] ∧
  switches (trace (main_turn (world_of (Some "sig") ["activewindowv2>>W1"] sim_en_us)).1)
  = [0; 1; 0; 0].
Proof. repeat split; by vm_compute. Qed.

(** Whole runs: five refused dials in a row; and the same with one event
    read on the third attempt, after which the waits start again. *)
Example backoff_all_refused :
  sleeps (trace (main 5 world_refused).1) = [500000000; 1000000000; 2000000000; 4000000000] ∧
  (main 4 world_refused).2 = None ∧
  (main 5 world_refused).2
  = Some (PanicError
            (wrapError "could not connect to the hyprland socket"
                       (wrapErrorStop "can't connect to Hyprland event socket" refused))).
Proof. repeat split; by vm_compute. Qed.

Example backoff_resets_after_event :
  sleeps (trace (main 7 world_one_event).1)
  = [500000000; 1000000000; 500000000; 1000000000; 2000000000; 4000000000] ∧
  (main 6 world_one_event).2 = None ∧
  (main 7 world_one_event).2
  = Some (PanicError
            (wrapError "could not connect to the hyprland socket"
                       (wrapErrorStop "can't connect to Hyprland event socket" refused))).
Proof. repeat split; by vm_compute. Qed.

(** * Further properties of the code *)

(** ** The parser on every line *)

Section ParserMore.
Import GoStrings GoStringsFacts.

Lemma nonempty_length (sep : string) : sep ≠ "" → (0 < String.length sep)%nat.
Proof. destruct sep; [done | simpl; lia]. Qed.

(** The text before the first instance of [sep] holds no instance. *)
Lemma FirstAt_no_sep (sep pre post s : string) :
  sep ≠ "" → FirstAt sep pre post s → ¬ Contains pre sep.
Proof.
  intros Hsep [Hs Hmin] (a & b & ->). pose proof (nonempty_length _ Hsep).
  rewrite !append_assoc in Hs. specialize (Hmin _ _ Hs).
  rewrite !length_append in Hmin. lia.
Qed.

Lemma empty_no_sep (sep : string) : sep ≠ "" → ¬ Contains "" sep.
Proof. intros Hsep (a & b & Hs). destruct a; [by destruct sep | done]. Qed.

(** No part of a split holds the separator. *)
Lemma genSplit_parts (sep : string) (n : nat) (s : string) :
  sep ≠ "" → (String.length s <= n)%nat →
  Forall (λ p, ¬ Contains p sep) (genSplit n s sep).
Proof.
  intros Hsep. pose proof (nonempty_length _ Hsep).
  revert s. induction n as [|n IH]; intros s Hn; cbn [genSplit].
  - destruct s; [|simpl in Hn; lia]. repeat constructor. by apply empty_no_sep.
  - destruct (Index s sep) as [m|] eqn:Hi.
    + pose proof (Index_lt _ _ _ Hi). constructor.
      * eapply FirstAt_no_sep; [done | by apply Index_Some].
      * apply IH. rewrite length_drop. lia.
    + repeat constructor. by apply Index_None.
Qed.

Lemma Join_cons (p q : string) (rest : list string) (sep : string) :
  Join (p :: q :: rest) sep = p +:+ sep +:+ Join (q :: rest) sep.
Proof. done. Qed.

(** Joining the parts of a split with the separator gives the string back. *)
Lemma Join_genSplit (sep : string) (n : nat) (s : string) :
  Join (genSplit n s sep) sep = s.
Proof.
  revert s. induction n as [|n IH]; intros s; cbn [genSplit]; [done|].
  destruct (Index s sep) as [m|] eqn:Hi; [|done].
  specialize (IH (drop (m + String.length sep) s)).
  destruct (genSplit n (drop (m + String.length sep) s) sep) as [|q rest] eqn:Hg.
  - by destruct n; simpl in Hg; [|destruct (Index _ _)].
  - rewrite Join_cons, IH. by destruct (Index_Some _ _ _ Hi) as [<- _].
Qed.

(** X1: [ReadEvent] turns a line into an event exactly when the line
    contains [">>"]; on every other line it panics, and it never returns
    the "format is unexpected" error. *)
Theorem parseEvent_outcomes (data : string) :
  ((∃ evt, parseEvent data = Ok evt) ↔ Contains data ">>") ∧
  (parseEvent data = Panicked (IndexOutOfRange 1 1) ↔ ¬ Contains data ">>") ∧
  (∀ e, parseEvent data ≠ Err e).
Proof.
  assert (Contains data ">>" → ∃ evt, parseEvent data = Ok evt) as Hok.
  { intros Hc. destruct (Index data ">>") as [m|] eqn:Hi.
    - destruct (Split_delimited _ _ _ (Index_Some _ _ _ Hi)) as [parts Hs].
      unfold parseEvent. rewrite Hs. eauto.
    - by apply Index_None in Hi. }
  split; [|split].
  - split; [|done]. intros [evt He] .
    destruct (Index data ">>") as [m|] eqn:Hi.
    + destruct (Index_Some _ _ _ Hi) as [Hs _]. by eexists _, _.
    + apply Index_None in Hi. by rewrite (parseEvent_no_delimiter _ Hi) in He.
  - split; [|apply parseEvent_no_delimiter].
    intros Hp Hc. destruct (Hok Hc) as [evt He]. congruence.
  - apply parseEvent_never_Err.
Qed.

Lemma parsed_event_parts (data : string) (evt : Event) :
  parseEvent data = Ok evt →
  ¬ Contains (Name evt) ">>" ∧ Args evt ≠ [] ∧
  Forall (λ a, ¬ Contains a ",") (Args evt).
Proof.
  intros He. destruct (Index data ">>") as [m|] eqn:Hi.
  - pose proof (Index_Some _ _ _ Hi) as Hf.
    destruct (Split_delimited _ _ _ Hf) as [parts Hs].
    unfold parseEvent in He. rewrite Hs in He. simpl in He. injection He as <-.
    cbn [Name Args]. split; [|split].
    + by eapply FirstAt_no_sep.
    + apply Split_nonempty.
    + by apply genSplit_parts.
  - apply Index_None in Hi. by rewrite (parseEvent_no_delimiter _ Hi) in He.
Qed.

(** X2: the name of a parsed event holds no [">>"], its argument list
    is never empty, and no argument holds a comma. *)
Theorem parseEvent_shape (data : string) (evt : Event) :
  parseEvent data = Ok evt →
  ¬ Contains (Name evt) ">>" ∧ Args evt ≠ [] ∧
  Forall (λ a, ¬ Contains a ",") (Args evt).
Proof. apply parsed_event_parts. Qed.

Lemma parseEvent_shape_witness :
  ¬ Contains (Name (mkEvent "activelayout" ["kbd"; "us"])) ">>" ∧
  Args (mkEvent "activelayout" ["kbd"; "us"]) ≠ [] ∧
  Forall (λ a, ¬ Contains a ",") (Args (mkEvent "activelayout" ["kbd"; "us"])).
Proof. apply (parseEvent_shape "activelayout>>kbd,us"). reflexivity. Defined.

(** X3: a line with exactly one [">>"] is recovered from its event: the
    name, the delimiter and the arguments joined by commas give the line
    back. *)
Theorem parseEvent_round_trip (data pre post : string) :
  FirstAt ">>" pre post data → ¬ Contains post ">>" →
  ∃ evt, parseEvent data = Ok evt ∧
         Name evt +:+ ">>" +:+ Join (Args evt) "," = data.
Proof.
  intros Hf Hn. destruct (Split_delimited _ _ _ Hf) as [parts Hs].
  apply Index_None in Hn. rewrite Hn in Hs.
  exists (mkEvent pre (Split post ",")). split.
  - unfold parseEvent. by rewrite Hs.
  - cbn [Name Args]. unfold Split. rewrite Join_genSplit. by destruct Hf as [-> _].
Qed.

Lemma parseEvent_round_trip_witness :
  ∃ evt, parseEvent "activelayout>>kbd,us" = Ok evt ∧
         Name evt +:+ ">>" +:+ Join (Args evt) "," = "activelayout>>kbd,us".
Proof.
  apply (parseEvent_round_trip "activelayout>>kbd,us" "activelayout" "kbd,us").
  - exact (Index_Some "activelayout>>kbd,us" ">>" 12 eq_refl).
  - by apply Index_None.
Defined.

End ParserMore.

(** ** What a computation adds to the trace *)

Section EmitsFacts.

Context {St : Type} `{!Hyprctl St}.
Implicit Types (w : World St) (P : Effect → bool).

Lemma Emits_ret {A} P (a : A) : Emits (St := St) P (ret a).
Proof. intros w. exists []. by rewrite app_nil_r. Qed.

Lemma Emits_fail {A} P (e : error) : Emits (St := St) (A := A) P (fail e).
Proof. intros w. exists []. by rewrite app_nil_r. Qed.

Lemma Emits_panic {A} P (p : panic) : Emits (St := St) (A := A) P (λ w, (w, Panicked p)).
Proof. intros w. exists []. by rewrite app_nil_r. Qed.

Lemma Emits_act P e : P e = true → Emits (St := St) P (act e).
Proof. intros He w. exists [e]. simpl. by rewrite He. Qed.

(** The continuation only has to behave on the values [m] can return. *)
Lemma Emits_bind {A B} P (m : M St A) (k : A → M St B) :
  Emits P m → (∀ a, (∃ w, (m w).2 = Ok a) → Emits P (k a)) → Emits P (bind m k).
Proof.
  intros Hm Hk w. unfold bind. destruct (Hm w) as (tr1 & Ht1 & Hp1).
  destruct (m w) as [w1 [a|e|p]] eqn:Hw; simpl in Ht1; [|by exists tr1..].
  destruct (Hk a ltac:(exists w; by rewrite Hw) w1) as (tr2 & Ht2 & Hp2).
  exists (tr1 ++ tr2). rewrite Ht2, Ht1, <- app_assoc. split; [done|].
  by rewrite forallb_app, Hp1, Hp2.
Qed.

Lemma Emits_wrapping {A} P msg (m : M St A) : Emits P m → Emits P (wrapping msg m).
Proof.
  intros Hm w. destruct (Hm w) as (tr & Ht & Hp). exists tr. split; [|done].
  unfold wrapping. by destruct (m w) as [w1 [a|e|p]].
Qed.

Lemma Emits_mono {A} P Q (m : M St A) :
  (∀ e, P e = true → Q e = true) → Emits P m → Emits Q m.
Proof.
  intros Hpq Hm w. destruct (Hm w) as (tr & Ht & Hp). exists tr. split; [done|].
  apply forallb_forall. intros e He. apply Hpq. by eapply forallb_forall in Hp.
Qed.

Lemma Emits_SwitchXKBLayout P i :
  P (ExecSwitch i) = true → Emits P (SwitchXKBLayout i).
Proof. intros Hp w. exists [ExecSwitch i]. rewrite SwitchXKBLayout_run. simpl. by rewrite Hp. Qed.

Lemma Emits_devices P : P ExecDevices = true → Emits P devices.
Proof. intros Hp w. exists [ExecDevices]. rewrite devices_run. simpl. by rewrite Hp. Qed.

Lemma Emits_last_arg P evt : Emits (St := St) P (last_arg evt).
Proof.
  intros w. exists []. rewrite app_nil_r. unfold last_arg.
  by destruct (last (Args evt)).
Qed.

End EmitsFacts.

(** ** Discovery against any controller *)

Section DiscoveryMore.

Context {St : Type} `{!Hyprctl St}.
Implicit Types (w : World St).

(** The scan keeps the length of the list, and the index it keeps is the
    one it was given or a position it went through. *)
Lemma scan_result mainKb shorts :
  ∀ i result a w res a',
    (scan mainKb i shorts result a w).2 = Ok (res, a') →
    length res = length result ∧
    (a' = a ∨ Z.of_nat i <= a' < Z.of_nat (i + length shorts)).
Proof.
  induction shorts as [|l rest IH]; intros i result a w res a'.
  - simpl. intros [= <- <-]. auto.
  - cbn [scan]. unfold bind at 1. rewrite SwitchXKBLayout_run.
    destruct (hyprctl_switchxkblayout (Z.of_nat i) (ctl w)) as [s1 [err|]]; [done|].
    cbn [fst snd]. unfold bind at 1. rewrite devices_run.
    destruct (hyprctl_devices _) as [s2 [err|err|response]]; [done | done |].
    cbn [fst snd].
    destruct (record_main mainKb i (Keyboards response) result a) as [res1 a1] eqn:Hrm.
    intros Hrun. destruct (IH _ _ _ _ _ _ Hrun) as [Hlen Ha].
    assert (length res1 = length result ∧ (a1 = a ∨ a1 = Z.of_nat i)) as [Hl1 Ha1].
    { unfold record_main in Hrm. destruct (find Main (Keyboards response)).
      - injection Hrm as <- <-. rewrite length_insert. split; [done|].
        destruct (String.eqb _ _); auto.
      - injection Hrm as <- <-. auto. }
    split; [congruence|]. simpl length. lia.
Qed.

Lemma Emits_scan (n : nat) mainKb shorts :
  ∀ i result a, (i + length shorts <= n)%nat →
                Emits (discovery_entry n) (scan mainKb i shorts result a).
Proof.
  induction shorts as [|l rest IH]; intros i result a Hn; cbn [scan].
  - apply Emits_ret.
  - simpl in Hn. apply Emits_bind.
    { apply Emits_SwitchXKBLayout. simpl. apply andb_true_iff. split; lia. }
    intros [err|] _; [apply Emits_fail|].
    apply Emits_bind; [by apply Emits_devices|].
    intros [err|err|response] _; [apply Emits_fail | apply Emits_fail |].
    destruct (record_main _ _ _ _ _). apply IH. lia.
Qed.

(** X4: against any controller, a discovery that returns a list returns
    one entry per configured position of the first response, and at least
    one. *)
Theorem ReadLayouts_length w w' (layouts : list string) :
  ReadLayouts w = (w', Ok layouts) →
  length layouts = configured (hyprctl_devices (ctl w)).2 ∧
  (0 < length layouts)%nat.
Proof.
  unfold ReadLayouts, bind at 1. rewrite devices_run.
  destruct (hyprctl_devices (ctl w)) as [s1 [err|err|response]]; [done | done |].
  cbn [fst snd configured]. destruct (Keyboards response) as [|kb0 kbs] eqn:Hk; [done|].
  set (mainKb := default kb0 _). set (shorts := GoStrings.Split _ _).
  unfold bind at 1.
  destruct (scan mainKb 0 shorts _ _ _) as [w2 [[res a']|e|p]] eqn:Hscan; [|done..].
  destruct (scan_result mainKb shorts 0%nat _ _ _ res a' ltac:(by rewrite Hscan))
    as [Hlen _].
  rewrite length_replicate in Hlen.
  assert (0 < length shorts)%nat.
  { pose proof (GoStringsFacts.Split_nonempty (Layout mainKb) ",").
    fold shorts in H. destruct shorts; [done | simpl; lia]. }
  cbn [fst snd]. destruct (a' =? -1).
  - unfold bind, act, ret. intros [= _ <-]. by rewrite Hlen.
  - unfold bind at 1. rewrite SwitchXKBLayout_run.
    destruct (hyprctl_switchxkblayout a' (ctl w2)) as [s3 [err|]]; [done|].
    intros [= _ <-]. by rewrite Hlen.
Qed.

Lemma ReadLayouts_entries w :
  ∃ tr, trace (ReadLayouts w).1 = trace w ++ tr ∧
        forallb (discovery_entry (configured (hyprctl_devices (ctl w)).2)) tr = true.
Proof.
  unfold ReadLayouts, bind at 1. rewrite devices_run.
  destruct (hyprctl_devices (ctl w)) as [s1 [err|err|response]];
    [by exists [ExecDevices].. |].
  cbn [fst snd configured]. destruct (Keyboards response) as [|kb0 kbs] eqn:Hk;
    [by exists [ExecDevices]|].
  set (mainKb := default kb0 _). set (shorts := GoStrings.Split _ _).
  set (n := length shorts). set (w1 := set_ctl s1 _).
  assert (Emits (discovery_entry n)
            (bind (scan mainKb 0 shorts (replicate n "") (-1))
               (λ '(result, activeLayoutIdx),
                  if activeLayoutIdx =? -1
                  then bind (act (Log LevelWarn strange_layout)) (λ _, ret result)
                  else bind (SwitchXKBLayout activeLayoutIdx)
                         (λ e, match e with
                               | Some err =>
                                   fail (wrapError
                                     "failed to activate back layout that used before gathering"
                                     err)
                               | None => ret result
                               end)))) as Hbody.
  { apply Emits_bind; [by apply Emits_scan|].
    intros [res a'] [w0 Hres]. apply scan_result in Hres as [_ Ha].
    destruct (a' =? -1) eqn:Heq.
    - apply Emits_bind; [by apply Emits_act | intros; apply Emits_ret].
    - apply Emits_bind; [|intros [err|] _; [apply Emits_fail | apply Emits_ret]].
      apply Emits_SwitchXKBLayout. simpl. apply andb_true_iff. fold n in Ha. lia. }
  destruct (Hbody w1) as (tr & Ht & Hp). exists (ExecDevices :: tr).
  split; [|done]. rewrite Ht. subst w1. simpl. by rewrite <- app_assoc.
Qed.

(** X5: against any controller, and however it ends, a discovery only
    queries, switches to positions below the number of configured
    positions, and may log the warning: it never asks for a position the
    keyboard does not have, reads no event and does not wait. *)
Theorem ReadLayouts_effects w :
  ∃ tr, trace (ReadLayouts w).1 = trace w ++ tr ∧
        forallb (discovery_entry (configured (hyprctl_devices (ctl w)).2)) tr = true.
Proof. apply ReadLayouts_entries. Qed.

(** Discovery, for a property of entries that holds of the three kinds
    it can add. *)
Lemma Emits_ReadLayouts (P : Effect → bool) :
  P ExecDevices = true → (∀ i, P (ExecSwitch i) = true) →
  (∀ msg, P (Log LevelWarn msg) = true) → Emits P ReadLayouts.
Proof.
  intros Hd Hs Hl w. destruct (ReadLayouts_entries w) as (tr & Ht & Hp).
  exists tr. split; [done|]. apply forallb_forall. intros e He.
  eapply forallb_forall in Hp; [|done]. by destruct e as [| | | | | |[]].
Qed.

End DiscoveryMore.

Lemma ReadLayouts_length_witness :
  length ["English (US)"; "German"; "French"]
  = configured (hyprctl_devices (ctl (world_of (Some "sig") [] sim_three))).2 ∧
  (0 < length ["English (US)"; "German"; "French"])%nat.
Proof.
  apply (ReadLayouts_length (world_of (Some "sig") [] sim_three)
           (ReadLayouts (world_of (Some "sig") [] sim_three)).1).
  by vm_compute.
Defined.

(** ** The layout table *)

Section TableMore.

Implicit Types (layouts : list string) (m : gmap string Z).

Lemma index_layouts_notin layouts : ∀ i m l,
  l ∉ layouts → index_layouts i layouts m !! l = m !! l.
Proof.
  induction layouts as [|h rest IH]; intros i m l Hl; [done|].
  apply not_elem_of_cons in Hl as [Hne Hl]. cbn [index_layouts].
  rewrite IH by done. by rewrite lookup_insert_ne.
Qed.

Lemma index_layouts_last layouts : ∀ i m l j,
  layouts !! j = Some l → (∀ j', (j < j')%nat → layouts !! j' ≠ Some l) →
  index_layouts i layouts m !! l = Some (Z.of_nat (i + j)).
Proof.
  induction layouts as [|h rest IH]; intros i m l j Hj Hlast; [done|].
  cbn [index_layouts]. destruct j as [|j].
  - injection Hj as ->. rewrite index_layouts_notin.
    + rewrite lookup_insert_eq. do 2 f_equal. lia.
    + intros [j' Hj']%list_elem_of_lookup. by apply (Hlast (S j') ltac:(lia)).
  - rewrite (IH (S i) _ l j Hj).
    + do 2 f_equal. lia.
    + intros j' Hlt. apply (Hlast (S j')). lia.
Qed.

Lemma index_layouts_back layouts : ∀ i m l z,
  index_layouts i layouts m !! l = Some z →
  m !! l = Some z ∨ ∃ j, z = Z.of_nat (i + j) ∧ layouts !! j = Some l.
Proof.
  induction layouts as [|h rest IH]; intros i m l z; [auto|].
  cbn [index_layouts]. intros [Hm | (j & -> & Hj)]%IH.
  - destruct (decide (h = l)) as [->|Hne].
    + rewrite lookup_insert_eq in Hm. injection Hm as <-.
      right. exists 0%nat. split; [f_equal; lia | done].
    + rewrite lookup_insert_ne in Hm by done. auto.
  - right. exists (S j). split; [f_equal; lia | done].
Qed.

(** X6: every index the table gives for a name is a position of the
    list at which that name stands. *)
Theorem index_layouts_points_back layouts (l : string) (z : Z) :
  index_layouts 0 layouts ∅ !! l = Some z →
  ∃ j, z = Z.of_nat j ∧ layouts !! j = Some l ∧ (j < length layouts)%nat.
Proof.
  intros [Hm | (j & -> & Hj)]%index_layouts_back; [by rewrite lookup_empty in Hm|].
  exists j. split; [done|]. split; [done|]. by eapply lookup_lt_Some.
Qed.

Lemma index_layouts_points_back_witness :
  ∃ j, 1 = Z.of_nat j ∧ ["en"; "us"] !! j = Some "us" ∧ (j < length ["en"; "us"])%nat.
Proof. apply (index_layouts_points_back ["en"; "us"] "us" 1). by vm_compute. Defined.

(** X7: the table gives a name the last position at which it stands in
    the list; with pairwise distinct names, its only position. *)
Theorem index_layouts_last_wins layouts (l : string) (j : nat) :
  layouts !! j = Some l → (∀ j', (j < j')%nat → layouts !! j' ≠ Some l) →
  index_layouts 0 layouts ∅ !! l = Some (Z.of_nat j).
Proof. intros Hj Hlast. by rewrite (index_layouts_last layouts 0 ∅ l j). Qed.

Lemma index_layouts_last_wins_witness :
  index_layouts 0 ["us"; "de"; "us"] ∅ !! "us" = Some (Z.of_nat 2).
Proof.
  apply (index_layouts_last_wins ["us"; "de"; "us"] "us" 2); [reflexivity|].
  intros [|[|[|j']]] Hlt; (lia || done).
Defined.

Lemma index_layouts_below layouts (l : string) :
  0 <= default 0 (index_layouts 0 layouts ∅ !! l) < Z.of_nat (Nat.max 1 (length layouts)).
Proof.
  destruct (index_layouts 0 layouts ∅ !! l) as [z|] eqn:Hz; simpl; [|lia].
  apply index_layouts_back in Hz as [Hm | (j & -> & Hj)];
    [by rewrite lookup_empty in Hm|].
  apply lookup_lt_Some in Hj. lia.
Qed.

End TableMore.

(** ** The tracker on every event *)

Section TrackerMore.

Context {St : Type} `{!Hyprctl St}.
Implicit Types (w : World St) (t : Tracker) (evt : Event).

(** X8: on an event that [ReadEvent] produced the turn never panics:
    the index [len(evt.Args)-1] is always in range. *)
Theorem handleEvent_on_parsed_event idx (data : string) evt t w :
  parseEvent data = Ok evt →
  ∃ turn, (handleEvent idx evt t w).2 = Ok turn.
Proof.
  intros Hp. destruct (parsed_event_parts _ _ Hp) as (_ & Hargs & _).
  destruct (last (Args evt)) as [a|] eqn:Hl; [|by apply last_None in Hl].
  unfold handleEvent, bind, last_arg, ret. rewrite Hl. simpl.
  destruct (String.eqb (Name evt) "activelayout").
  { destruct (String.eqb _ ""); eauto. }
  destruct (String.eqb (Name evt) "activewindowv2"); [|eauto].
  destruct (String.eqb _ a); [eauto|]. destruct (_ =? _); [eauto|].
  rewrite SwitchXKBLayout_run. simpl. destruct (hyprctl_switchxkblayout _ _).2; eauto.
Qed.

Lemma handleEvent_sends_at_most_one_aux idx evt t w :
  trace (handleEvent idx evt t w).1 = trace w ∨
  ∃ wid, trace (handleEvent idx evt t w).1
         = trace w ++ [ExecSwitch (default defaultLayout (layoutMap t !! wid))].
Proof.
  unfold handleEvent, bind, last_arg, ret.
  destruct (String.eqb (Name evt) "activelayout").
  { left. destruct (String.eqb _ ""); [done|]. by destruct (last (Args evt)). }
  destruct (String.eqb (Name evt) "activewindowv2"); [|by left].
  destruct (last (Args evt)) as [wid|]; [|by left]. simpl.
  destruct (String.eqb _ wid); [by left|]. destruct (_ =? _); [by left|].
  right. exists wid. rewrite SwitchXKBLayout_run. simpl.
  by destruct (hyprctl_switchxkblayout _ _).2.
Qed.

(** X9: whatever the event and the state, a turn sends at most one
    command, and it sends one only on [activewindowv2] for a window other
    than the current one whose remembered layout (0 if none) differs from
    the current layout; the command is the switch to that layout. *)
Theorem handleEvent_sends_at_most_one idx evt t w :
  trace (handleEvent idx evt t w).1 = trace w ∨
  (Name evt = "activewindowv2" ∧
   ∃ wid, last (Args evt) = Some wid ∧ wid ≠ currentWindowId t ∧
          default defaultLayout (layoutMap t !! wid) ≠ currentLayout t ∧
          trace (handleEvent idx evt t w).1
          = trace w ++ [ExecSwitch (default defaultLayout (layoutMap t !! wid))]).
Proof.
  unfold handleEvent, bind, last_arg, ret.
  destruct (String.eqb (Name evt) "activelayout").
  { left. destruct (String.eqb _ ""); [done|]. by destruct (last (Args evt)). }
  destruct (String.eqb_spec (Name evt) "activewindowv2") as [Hn|]; [|by left].
  destruct (last (Args evt)) as [wid|] eqn:Hl; [|by left]. simpl.
  destruct (String.eqb_spec (currentWindowId t) wid) as [|Hw]; [by left|].
  destruct (Z.eqb_spec (default defaultLayout (layoutMap t !! wid)) (currentLayout t))
    as [|Ht]; [by left|].
  right. split; [done|]. exists wid. split; [done|]. split; [done|]. split; [done|].
  rewrite SwitchXKBLayout_run. simpl. by destruct (hyprctl_switchxkblayout _ _).2.
Qed.

(** X10: a turn changes only what its event is about.  The layout of a
    window other than the current one is never touched; an event that is
    not [activelayout] leaves the whole window map and the current layout
    alone; an event that is not [activewindowv2] leaves the current
    window alone. *)
Theorem handleEvent_changes_only_its_part idx evt t t' w w' :
  handleEvent idx evt t w = (w', Ok (Next t')) →
  (∀ k, k ≠ currentWindowId t → layoutMap t' !! k = layoutMap t !! k) ∧
  (Name evt ≠ "activelayout" →
   layoutMap t' = layoutMap t ∧ currentLayout t' = currentLayout t) ∧
  (Name evt ≠ "activewindowv2" → currentWindowId t' = currentWindowId t).
Proof.
  unfold handleEvent, bind, last_arg, ret.
  destruct (String.eqb_spec (Name evt) "activelayout") as [Hn|Hn].
  { destruct (String.eqb _ ""); [by intros [= _ <-]|].
    destruct (last (Args evt)) as [k0|]; [|done]. intros [= _ <-]. simpl.
    split; [|done]. intros k Hk. by rewrite lookup_insert_ne. }
  destruct (String.eqb_spec (Name evt) "activewindowv2") as [Hn2|Hn2];
    [|by intros [= _ <-]].
  destruct (last (Args evt)) as [wid|]; [|done]. simpl.
  destruct (String.eqb _ wid); [by intros [= _ <-]|].
  destruct (_ =? _); [by intros [= _ <-]|].
  rewrite SwitchXKBLayout_run. simpl.
  destruct (hyprctl_switchxkblayout _ _).2; [done|]. by intros [= _ <-].
Qed.

(** X11: focusing another window whose remembered layout (0 if none) is
    the current layout sends no command; the window becomes current. *)
Theorem focus_with_current_layout_is_silent idx evt t wid w :
  Name evt = "activewindowv2" → last (Args evt) = Some wid →
  wid ≠ currentWindowId t →
  default defaultLayout (layoutMap t !! wid) = currentLayout t →
  handleEvent idx evt t w = (w, Ok (Next (mkTracker (layoutMap t) wid (currentLayout t)))).
Proof. apply handleEvent_same_layout. Qed.

(** X12: the first focus of a window that has no remembered layout asks
    for layout 0: one switch-to-0 command unless the current layout is
    already 0, and the window map stays as it was. *)
Theorem focus_unseen_window_defaults idx evt t wid w :
  Name evt = "activewindowv2" → last (Args evt) = Some wid →
  wid ≠ currentWindowId t → layoutMap t !! wid = None →
  trace (handleEvent idx evt t w).1
  = trace w ++ (if currentLayout t =? 0 then [] else [ExecSwitch 0]) ∧
  ∀ t', (handleEvent idx evt t w).2 = Ok (Next t') →
        t' = mkTracker (layoutMap t) wid (currentLayout t).
Proof.
  intros Hn Hl Hw Hm.
  destruct (Z.eqb_spec (currentLayout t) 0) as [H0|H0].
  - rewrite (handleEvent_same_layout idx evt t wid w Hn Hl Hw) by (by rewrite Hm).
    simpl. rewrite app_nil_r. split; [done|]. by intros t' [= <-].
  - rewrite (handleEvent_switch idx evt t wid w Hn Hl Hw) by (by rewrite Hm).
    rewrite Hm. simpl. split; [done|].
    destruct (hyprctl_switchxkblayout _ _).2; [done|]. by intros t' [= <-].
Qed.

End TrackerMore.

Lemma handleEvent_on_parsed_event_witness :
  ∃ turn, (handleEvent en_us_table (mkEvent "activelayout" ["kbd"; "us"]) initial
                       (world_of (Some "sig") [] sim_en_us)).2 = Ok turn.
Proof.
  apply (handleEvent_on_parsed_event en_us_table "activelayout>>kbd,us"). reflexivity.
Defined.

Lemma handleEvent_changes_only_its_part_witness :
  (∀ k, k ≠ currentWindowId (mkTracker ∅ "W1" 0) →
        layoutMap (mkTracker (<["W1" := 1]> ∅) "W1" 1) !! k
        = layoutMap (mkTracker ∅ "W1" 0) !! k) ∧
  (Name (mkEvent "activelayout" ["kbd"; "us"]) ≠ "activelayout" →
   layoutMap (mkTracker (<["W1" := 1]> ∅) "W1" 1) = layoutMap (mkTracker ∅ "W1" 0) ∧
   currentLayout (mkTracker (<["W1" := 1]> ∅) "W1" 1) = currentLayout (mkTracker ∅ "W1" 0)) ∧
  (Name (mkEvent "activelayout" ["kbd"; "us"]) ≠ "activewindowv2" →
   currentWindowId (mkTracker (<["W1" := 1]> ∅) "W1" 1)
   = currentWindowId (mkTracker ∅ "W1" 0)).
Proof.
  apply (handleEvent_changes_only_its_part en_us_table (mkEvent "activelayout" ["kbd"; "us"])
           (mkTracker ∅ "W1" 0) (mkTracker (<["W1" := 1]> ∅) "W1" 1)
           (world_of (Some "sig") [] sim_en_us) (world_of (Some "sig") [] sim_en_us)).
  by vm_compute.
Defined.

Lemma focus_with_current_layout_is_silent_witness :
  handleEvent en_us_table (mkEvent "activewindowv2" ["W2"]) (mkTracker ∅ "W1" 0)
              (world_of (Some "sig") [] sim_en_us)
  = (world_of (Some "sig") [] sim_en_us,
     Ok (Next (mkTracker (layoutMap (mkTracker ∅ "W1" 0)) "W2"
                         (currentLayout (mkTracker ∅ "W1" 0))))).
Proof.
  apply (focus_with_current_layout_is_silent en_us_table (mkEvent "activewindowv2" ["W2"])
           (mkTracker ∅ "W1" 0) "W2" (world_of (Some "sig") [] sim_en_us));
    [reflexivity | reflexivity | by vm_compute | by vm_compute].
Defined.

Lemma focus_unseen_window_defaults_witness :
  trace (handleEvent en_us_table (mkEvent "activewindowv2" ["W2"]) (mkTracker ∅ "W1" 1)
                     (world_of (Some "sig") [] sim_en_us)).1
  = trace (world_of (Some "sig") [] sim_en_us)
    ++ (if currentLayout (mkTracker ∅ "W1" 1) =? 0 then [] else [ExecSwitch 0]) ∧
  ∀ t', (handleEvent en_us_table (mkEvent "activewindowv2" ["W2"]) (mkTracker ∅ "W1" 1)
                     (world_of (Some "sig") [] sim_en_us)).2 = Ok (Next t') →
        t' = mkTracker (layoutMap (mkTracker ∅ "W1" 1)) "W2"
                       (currentLayout (mkTracker ∅ "W1" 1)).
Proof.
  apply (focus_unseen_window_defaults en_us_table (mkEvent "activewindowv2" ["W2"])
           (mkTracker ∅ "W1" 1) "W2" (world_of (Some "sig") [] sim_en_us));
    [reflexivity | reflexivity | by vm_compute | by vm_compute].
Defined.

(** ** Remembering and restoring *)

Section Restoring.

Context {St : Type} `{!Hyprctl St}.
Implicit Types (w : World St) (t : Tracker).



(** A turn keeps remembered layouts below the size of the table, and
    asks only for such layouts. *)
Lemma handleEvent_below layouts evt t :
  let n := Nat.max 1 (length layouts) in
  remembers_below n t →
  Emits (tracking_entry n) (handleEvent (index_layouts 0 layouts ∅) evt t) ∧
  ∀ w t', (handleEvent (index_layouts 0 layouts ∅) evt t w).2 = Ok (Next t') →
          remembers_below n t'.
Proof.
  intros n Ht. split.
  - intros w.
    destruct (handleEvent_sends_at_most_one_aux (index_layouts 0 layouts ∅) evt t w)
      as [Hsame | (wid & Htr)].
    + exists []. by rewrite app_nil_r.
    + exists [ExecSwitch (default defaultLayout (layoutMap t !! wid))].
      split; [done|].
      assert (0 <= default defaultLayout (layoutMap t !! wid) < Z.of_nat n) as Hr.
      { destruct (layoutMap t !! wid) as [v|] eqn:Hv; simpl.
        - by apply (map_Forall_lookup_1 _ _ _ _ Ht) in Hv.
        - unfold defaultLayout. lia. }
      cbn [forallb tracking_entry]. rewrite andb_true_r.
      apply andb_true_iff. split; lia.
  - intros w t'. unfold handleEvent, bind, last_arg, ret.
    destruct (String.eqb (Name evt) "activelayout").
    { destruct (String.eqb _ ""); [by intros [= <-]|].
      destruct (last (Args evt)) as [k|]; [|done]. intros [= <-].
      apply map_Forall_insert_2; [|done]. apply index_layouts_below. }
    destruct (String.eqb (Name evt) "activewindowv2"); [|by intros [= <-]].
    destruct (last (Args evt)) as [wid|]; [|done]. simpl.
    destruct (String.eqb _ wid); [by intros [= <-]|].
    destruct (_ =? _); [by intros [= <-]|].
    rewrite SwitchXKBLayout_run. simpl.
    destruct (hyprctl_switchxkblayout _ _).2; [done|]. by intros [= <-].
Qed.

Lemma Emits_resetRetry P : Emits (St := St) P resetRetry.
Proof. intros w. exists []. by rewrite app_nil_r. Qed.

Lemma eventLoop_below layouts lines :
  let n := Nat.max 1 (length layouts) in
  ∀ t, remembers_below n t →
       Emits (tracking_entry n)
             (eventLoop resetRetry (index_layouts 0 layouts ∅) lines t).
Proof.
  intros n. induction lines as [|data rest IH]; intros t Ht; cbn [eventLoop].
  - apply Emits_bind; [by apply Emits_act | intros; apply Emits_fail].
  - apply Emits_bind; [by apply Emits_act|]. intros _ _.
    destruct (parseEvent data) as [evt|e|p]; [|apply Emits_fail | apply Emits_panic].
    apply Emits_bind; [apply Emits_resetRetry|]. intros _ _.
    destruct (handleEvent_below layouts evt t Ht) as [Hem Hnext].
    apply Emits_bind; [done|]. intros [t'|t' err] [w0 Hw0]; [|apply Emits_fail].
    apply IH. by eapply Hnext.
Qed.

(** X14: with the table built from a list of layouts, the event loop,
    started as [processHyprlandEvents] starts it and whatever lines come,
    only reads and sends switches to positions of that list (position 0
    for an empty list): it never asks for a layout that discovery did not
    find. *)
Theorem eventLoop_stays_within_table (layouts lines : list string) w :
  ∃ tr, trace (eventLoop resetRetry (index_layouts 0 layouts ∅) lines initial w).1
        = trace w ++ tr ∧
        forallb (tracking_entry (Nat.max 1 (length layouts))) tr = true.
Proof. apply eventLoop_below. apply map_Forall_empty. Qed.

End Restoring.


(** ** A whole attempt *)

Section AttemptMore.

Context {St : Type} `{!Hyprctl St}.
Implicit Types (w : World St) (P : Effect → bool).

Lemma Emits_handleEvent P idx evt t :
  (∀ i, P (ExecSwitch i) = true) → Emits P (handleEvent idx evt t).
Proof.
  intros Hs w. destruct (handleEvent_sends_at_most_one_aux idx evt t w) as [Hsame|[wid Htr]].
  - exists []. by rewrite app_nil_r.
  - eexists. split; [done|]. simpl. by rewrite Hs.
Qed.

Lemma Emits_eventLoop P (rr : M St unit) idx lines :
  (∀ i, P (ExecSwitch i) = true) → (∀ d, P (ReadLine d) = true) → Emits P rr →
  ∀ t, Emits P (eventLoop rr idx lines t).
Proof.
  intros Hs Hr Hrr. induction lines as [|data rest IH]; intros t; cbn [eventLoop].
  - apply Emits_bind; [by apply Emits_act | intros; apply Emits_fail].
  - apply Emits_bind; [by apply Emits_act|]. intros _ _.
    destruct (parseEvent data) as [evt|e|p]; [|apply Emits_fail | apply Emits_panic].
    apply Emits_bind; [done|]. intros _ _.
    apply Emits_bind; [by apply Emits_handleEvent|].
    intros [t'|t' err] _; [apply IH | apply Emits_fail].
Qed.

(** The loop has no way out but an error or a panic. *)
Lemma eventLoop_never_Ok (rr : M St unit) idx lines :
  ∀ t w w' r, eventLoop rr idx lines t w = (w', r) →
              (∃ e, r = Err e) ∨ (∃ p, r = Panicked p).
Proof.
  induction lines as [|data rest IH]; intros t w w' r; cbn [eventLoop].
  - intros [= _ <-]. eauto.
  - unfold bind at 1, act at 1.
    destruct (parseEvent data) as [evt|e|p]; [|intros [= _ <-]; eauto..].
    unfold bind at 1. destruct (rr _) as [w1 [u|e|p]]; [|intros [= _ <-]; eauto..].
    unfold bind at 1. destruct (handleEvent idx evt t w1) as [w2 [[t'|t' err]|e|p]];
      [apply IH | intros [= _ <-]; eauto..].
Qed.

(** X15: [processHyprlandEvents] never returns [nil]: every attempt ends
    with an error or a panic, so [main] always takes its failure branch. *)
Theorem processHyprlandEvents_never_nil (rr : M St unit) w :
  (∃ e, (processHyprlandEvents rr w).2 = Err e) ∨
  (∃ p, (processHyprlandEvents rr w).2 = Panicked p).
Proof.
  destruct (processHyprlandEvents rr w) as [w' r] eqn:Hrun. cbn [snd].
  revert Hrun. unfold processHyprlandEvents.
  destruct (NewClient w) as [w1 [client|e|p]]; [|intros [= _ <-]; eauto..].
  unfold bind, wrapping.
  destruct (ReadLayouts w1) as [w2 [layouts|e|p]]; [|intros [= _ <-]; eauto..].
  destruct (eventLoop _ _ _ _ _) as [w3 r3] eqn:Hloop. intros [= _ <-].
  by eapply eventLoop_never_Ok.
Qed.

(** X16: an attempt that opened the socket closes it, once and as the
    last thing it does, however it ends; in between it neither dials nor
    closes.  An attempt that could not open it stops there. *)
Theorem attempt_closes_its_socket w :
  match NewClient w with
  | (w1, Ok _) =>
      ∃ body, trace (processHyprlandEvents resetRetry w).1
              = trace w1 ++ body ++ [CloseSock] ∧
              forallb keeps_socket body = true
  | (w1, _) => (processHyprlandEvents resetRetry w).1 = w1
  end.
Proof.
  unfold processHyprlandEvents.
  destruct (NewClient w) as [w1 [client|e|p]]; [|done..].
  set (body := bind _ _).
  assert (Emits keeps_socket body) as Hbody.
  { apply Emits_bind; [by apply Emits_wrapping, Emits_ReadLayouts|].
    intros layouts _. apply Emits_eventLoop; [done | done | apply Emits_resetRetry]. }
  destruct (Hbody w1) as (tr & Ht & Hp). exists tr.
  destruct (body w1) as [w2 r]. simpl in *. rewrite Ht. by rewrite <- app_assoc.
Qed.

(** *** The supervisor over whole runs *)

(** One turn of [main] adds waits from the configured list only, and
    keeps the counter within the length of that list. *)
Lemma main_turn_waits w :
  (retry w <= length retryWait)%nat →
  ∃ tr, trace (main_turn w).1 = trace w ++ tr ∧
        Forall (λ d, d ∈ retryWait) (sleeps tr) ∧
        (retry (main_turn w).1 <= length retryWait)%nat.
Proof.
  intros Hr. unfold main_turn.
  destruct (processHyprlandEvents resetRetry w) as [w1 [u|err|p]] eqn:Hrun;
    destruct (Attempted_processHyprlandEvents _ _ _ Hrun) as (tr & Ht & Hq & Hr1);
    pose proof (sleeps_quiet _ Hq) as Hsl;
    assert (retry w1 <= length retryWait)%nat as Hr1'
      by (rewrite Hr1; destruct (existsb _ _); lia).
  - exists tr. cbn [fst]. by rewrite Hsl.
  - rewrite retry_emit. destruct (length retryWait <=? retry w1)%nat eqn:Hl.
    + exists (tr ++ [Log LevelError (Error err)]). cbn [fst].
      rewrite trace_emit, Ht, <- app_assoc. split; [done|].
      unfold sleeps in *. rewrite omap_app, Hsl. by split.
    + apply Nat.leb_gt in Hl. destruct (lookup_lt_is_Some_2 _ _ Hl) as [d Hd].
      rewrite Hd. exists (tr ++ failed_attempt err d). cbn [fst].
      repeat (rewrite trace_emit || rewrite trace_set_retry).
      rewrite Ht, <- !app_assoc. split; [done|]. split.
      * unfold sleeps in *. rewrite omap_app, Hsl. simpl.
        constructor; [|constructor]. by eapply list_elem_of_lookup_2.
      * cbn [retry set_retry]. rewrite !retry_emit. lia.
  - exists tr. cbn [fst]. by rewrite Hsl.
Qed.

(** X17: whatever happens in the attempts, every wait of a run of
    [main] is one of the four configured durations, and the counter never
    passes four, so [retryWait[retry]] is never out of range. *)
Theorem main_waits_are_configured (fuel : nat) w :
  ∃ tr, trace (main fuel w).1 = trace w ++ tr ∧
        Forall (λ d, d ∈ retryWait) (sleeps tr) ∧
        (retry (main fuel w).1 <= length retryWait)%nat.
Proof.
  unfold main.
  assert (∀ w0, (retry w0 <= length retryWait)%nat →
                ∃ tr, trace (main_loop fuel w0).1 = trace w0 ++ tr ∧
                      Forall (λ d, d ∈ retryWait) (sleeps tr) ∧
                      (retry (main_loop fuel w0).1 <= length retryWait)%nat) as Hloop.
  { induction fuel as [|fuel IH]; intros w0 Hr; cbn [main_loop].
    - exists []. rewrite app_nil_r. by repeat split.
    - destruct (main_turn_waits w0 Hr) as (tr1 & Ht1 & Hs1 & Hr1).
      destruct (main_turn w0) as [w1 [p|]]; cbn [fst] in *; [by exists tr1|].
      destruct (IH w1 Hr1) as (tr2 & Ht2 & Hs2 & Hr2).
      exists (tr1 ++ tr2). rewrite Ht2, Ht1, <- app_assoc. split; [done|].
      split; [|done]. unfold sleeps in *. rewrite omap_app. by apply Forall_app. }
  destruct (Hloop (set_retry 0 w) ltac:(simpl; lia)) as (tr & Ht & Hs & Hr).
  by exists tr.
Qed.

End AttemptMore.

(** X18: in a run of [main] from an empty trace, at every point where
    the loop goes round again the counter is the number of failed attempts
    in a row since the start or since the last event that was read. *)
Theorem main_counts_failures {St : Type} `{!Hyprctl St} (fuel : nat) (w w' : World St) :
  trace w = [] → main fuel w = (w', None) →
  retry w' = consecutive_failures 0 (trace w').
Proof.
  intros Ht. unfold main. apply main_loop_keeps_count. simpl. by rewrite Ht.
Qed.

Lemma main_counts_failures_witness :
  retry (main 2 world_refused).1
  = consecutive_failures 0 (trace (main 2 world_refused).1).
Proof.
  apply (main_counts_failures 2 world_refused (main 2 world_refused).1);
    [reflexivity | by vm_compute].
Defined.

(** ** The earlier program *)

Module LegacyFacts.

Section Facts.

Context {St : Type} `{!Hyprctl St}.
Implicit Types (w : World St) (t : Tracker) (evt : Event).

(** X19: the earlier loop sends a switch command on every
    [activewindowv2] event, also when the window is already the current
    one or already has the current layout; when the command fails the
    process panics. *)
Theorem focus_always_switches idx evt t wid w :
  Name evt = "activewindowv2" → last (Args evt) = Some wid →
  let target := default defaultLayout (layoutMap t !! wid) in
  switches (trace (Legacy.handle idx evt t w).1) = switches (trace w) ++ [target] ∧
  (Legacy.handle idx evt t w).2
  = match (hyprctl_switchxkblayout target (ctl w)).2 with
    | None => Ok (mkTracker (layoutMap t) wid (currentLayout t))
    | Some e => Panicked (PanicError (wrapError "Failed to activate layout" e))
    end.
Proof.
  intros Hn Hl target. unfold Legacy.handle, Legacy.activateLayout, bind, last_arg, ret, act.
  rewrite Hn, Hl. cbn [String.eqb]. simpl. fold target.
  rewrite SwitchXKBLayout_run. cbn [fst snd].
  destruct (hyprctl_switchxkblayout target (ctl w)).2; by trace_simpl.
Qed.

(** [Connect] leaves the counter, the script of the dials and the
    controller alone, and never panics. *)
Lemma Connect_frame w :
  retry (Legacy.Connect w).1 = retry w ∧ dials (Legacy.Connect w).1 = dials w ∧
  ctl (Legacy.Connect w).1 = ctl w ∧
  (∃ tr, trace (Legacy.Connect w).1 = trace w ++ tr ∧
         forallb (λ e, match e with Dial _ => true | _ => false end) tr = true) ∧
  (∀ p, (Legacy.Connect w).2 ≠ Panicked p).
Proof.
  unfold Legacy.Connect.
  destruct (env_signature w); [|repeat split; [by exists [] ; rewrite app_nil_r | done]].
  destruct (current_user w); [repeat split; [by exists [] ; rewrite app_nil_r | done]|].
  destruct (dials w (ndials w)); repeat split; try done; by eexists [_].
Qed.

(** X20: when a read fails, the earlier loop dials again and goes on
    with the same table, window map and current window: whether the dial
    succeeds or not, nothing is discovered again and no command is sent;
    the counter goes up by one. *)
Theorem reconnect_keeps_state idx t w :
  (retry w <= 3)%nat →
  ∃ w' reader',
    Legacy.turn idx [] t w = (w', Legacy.Goes reader' t) ∧
    retry w' = S (retry w) ∧ ctl w' = ctl w ∧
    ∃ tr, trace w' = trace w ++ tr ∧
          forallb (λ e, match e with ExecDevices | ExecSwitch _ => false | _ => true end) tr
          = true.
Proof.
  intros Hr. unfold Legacy.turn.
  assert ((3 <? retry w)%nat = false) as -> by (apply Nat.ltb_ge; lia).
  set (w0 := if (0 <? retry w)%nat then _ else w).
  assert (retry w0 = retry w ∧ ctl w0 = ctl w ∧ dials w0 = dials w ∧
          ∃ tr0, trace w0 = trace w ++ tr0 ∧
                 forallb (λ e, match e with ExecDevices | ExecSwitch _ => false | _ => true end)
                         tr0 = true) as (Hr0 & Hc0 & Hd0 & tr0 & Ht0 & Hp0).
  { subst w0. destruct (0 <? retry w)%nat; repeat split; [by eexists [_] |].
    exists []. by rewrite app_nil_r. }
  cbn [Legacy.ReadEvent]. cbn [retry emit].
  set (w2 := set_retry _ _).
  destruct (Connect_frame w2) as (Hr3 & _ & Hc3 & (tr3 & Ht3 & Hp3) & Hnp).
  assert (forallb (λ e, match e with ExecDevices | ExecSwitch _ => false | _ => true end) tr3
          = true) as Hp3'.
  { apply forallb_forall. intros e He. eapply forallb_forall in Hp3; [|done].
    by destruct e. }
  destruct (Legacy.Connect w2) as [w3 [reader'|e|p]]; cbn [fst snd] in *.
  - exists w3, reader'. split; [done|]. rewrite Hr3, Hc3. subst w2. cbn [retry set_retry ctl].
    split; [by rewrite Hr0|]. split; [done|].
    exists (tr0 ++ ReadLine None :: tr3). rewrite Ht3. simpl.
    rewrite Ht0, <- !app_assoc. split; [done|]. by rewrite forallb_app, Hp0.
  - eexists _, []. split; [done|]. cbn [retry emit ctl]. rewrite Hr3, Hc3.
    subst w2. cbn [retry set_retry ctl]. split; [by rewrite Hr0|]. split; [done|].
    exists (tr0 ++ ReadLine None :: tr3 ++ [Log LevelError (Error (wrapError Legacy.reconnect_failed e))]).
    rewrite trace_emit, Ht3. simpl. rewrite Ht0, <- !app_assoc. split; [done|].
    rewrite forallb_app, Hp0. simpl. by rewrite forallb_app, Hp3'.
  - by destruct (Hnp p).
Qed.

(** A turn on a reader at its end, when no dial gives a connection. *)
Lemma turn_dead idx t w :
  (retry w <= 3)%nat → (∀ n lines, dials w n ≠ Connected lines) →
  ∃ w', Legacy.turn idx [] t w = (w', Legacy.Goes [] t) ∧
        retry w' = S (retry w) ∧ dials w' = dials w ∧
        sleeps (trace w') =
          sleeps (trace w) ++
          (if (0 <? retry w)%nat then [Z.of_nat (retry w) * Second] else []).
Proof.
  intros Hr Hd. unfold Legacy.turn.
  assert ((3 <? retry w)%nat = false) as -> by (apply Nat.ltb_ge; lia).
  set (w0 := if (0 <? retry w)%nat then _ else w).
  assert (retry w0 = retry w ∧ dials w0 = dials w ∧
          sleeps (trace w0) =
            sleeps (trace w) ++
            (if (0 <? retry w)%nat then [Z.of_nat (retry w) * Second] else []))
    as (Hr0 & Hd0 & Hs0).
  { subst w0. destruct (0 <? retry w)%nat; repeat split; [by trace_simpl|].
    by rewrite app_nil_r. }
  cbn [Legacy.ReadEvent]. cbn [retry emit].
  set (w2 := set_retry _ _).
  destruct (Connect_frame w2) as (Hr3 & Hd3 & _ & (tr3 & Ht3 & Hp3) & Hnp).
  assert (sleeps tr3 = []) as Hs3.
  { clear Ht3. induction tr3 as [|e tr3 IH]; [done|]. simpl in Hp3.
    destruct e; try done. by apply IH. }
  assert (∀ lines, (Legacy.Connect w2).2 ≠ Ok lines) as Hno.
  { intros lines. unfold Legacy.Connect. destruct (env_signature w2); [|done].
    destruct (current_user w2); [done|].
    destruct (dials w2 (ndials w2)) eqn:Hdial; [done|].
    exfalso. subst w2. cbn [dials set_retry emit] in Hdial. rewrite Hd0 in Hdial.
    by eapply Hd. }
  destruct (Legacy.Connect w2) as [w3 [reader'|e|p]]; cbn [fst snd] in *.
  - by destruct (Hno reader').
  - eexists. split; [done|]. cbn [retry emit dials]. rewrite Hr3, Hd3.
    subst w2. cbn [retry set_retry dials emit]. split; [by rewrite Hr0|]. split; [done|].
    rewrite trace_emit, Ht3. simpl. unfold sleeps in *. rewrite !omap_app, Hs3, Hs0.
    simpl. by rewrite !app_nil_r.
  - by destruct (Hnp p).
Qed.

(** X21: when the read keeps failing and no dial gives a connection, the
    earlier loop reads four times, waiting 1s, 2s and 3s before the
    second, third and fourth read, and then panics with "Failed to
    reconnect after 4 attempts"; it keeps its locals until then. *)
Theorem gives_up_after_four_failures idx t w (fuel : nat) :
  retry w = 0%nat → (∀ n lines, dials w n ≠ Connected lines) → (5 <= fuel)%nat →
  ∃ w', Legacy.loop fuel idx [] t w
        = (w', Some (PanicError (errorString "Failed to reconnect after 4 attempts"))) ∧
        sleeps (trace w') = sleeps (trace w) ++ [Second; 2 * Second; 3 * Second].
Proof.
  intros Hr Hd Hf. do 5 (destruct fuel as [|fuel]; [lia|]). clear Hf.
  destruct (turn_dead idx t w ltac:(lia) Hd) as (w1 & Ht1 & Hr1 & Hd1 & Hs1).
  destruct (turn_dead idx t w1 ltac:(lia) ltac:(by rewrite Hd1))
    as (w2 & Ht2 & Hr2 & Hd2 & Hs2).
  destruct (turn_dead idx t w2 ltac:(lia) ltac:(by rewrite Hd2, Hd1))
    as (w3 & Ht3 & Hr3 & Hd3 & Hs3).
  destruct (turn_dead idx t w3 ltac:(lia) ltac:(by rewrite Hd3, Hd2, Hd1))
    as (w4 & Ht4 & Hr4 & Hd4 & Hs4).
  cbn [Legacy.loop]. rewrite Ht1. cbn [Legacy.loop]. rewrite Ht2.
  cbn [Legacy.loop]. rewrite Ht3. cbn [Legacy.loop]. rewrite Ht4.
  cbn [Legacy.loop]. unfold Legacy.turn.
  rewrite Hr in *. rewrite Hr1 in *. rewrite Hr2 in *. rewrite Hr3 in *. rewrite Hr4.
  cbn [Nat.ltb Nat.leb]. eexists. split; [reflexivity|].
  rewrite trace_emit. unfold sleeps in *. rewrite omap_app, Hs4, Hs3, Hs2, Hs1.
  simpl. rewrite !app_nil_r, <- !app_assoc. simpl. do 4 f_equal.
Qed.

(** X22: in the earlier program a missing session signature is fatal at
    once: [main] panics with the connection error before any dial, any
    controller command and any wait. *)
Theorem missing_signature_is_fatal w (fuel : nat) :
  env_signature w = None →
  Legacy.main fuel w
  = (emit (Log LevelError
             (Error (wrapError "Could not connect to the hyprland socket"
                       (errorString "do you have Hyprland instance launched?")))) w,
     Some (PanicError (wrapError "Could not connect to the hyprland socket"
                         (errorString "do you have Hyprland instance launched?")))).
Proof. intros He. unfold Legacy.main, Legacy.Connect. by rewrite He. Qed.

End Facts.

End LegacyFacts.

Lemma legacy_focus_always_switches_witness :
  let target := default defaultLayout (layoutMap (mkTracker ∅ "W1" 0) !! "W1") in
  switches (trace (Legacy.handle en_us_table (mkEvent "activewindowv2" ["W1"])
                                 (mkTracker ∅ "W1" 0)
                                 (world_of (Some "sig") [] sim_en_us)).1)
  = switches (trace (world_of (Some "sig") [] sim_en_us)) ++ [target] ∧
  (Legacy.handle en_us_table (mkEvent "activewindowv2" ["W1"]) (mkTracker ∅ "W1" 0)
                 (world_of (Some "sig") [] sim_en_us)).2
  = match (hyprctl_switchxkblayout target (ctl (world_of (Some "sig") [] sim_en_us))).2 with
    | None => Ok (mkTracker (layoutMap (mkTracker ∅ "W1" 0)) "W1"
                            (currentLayout (mkTracker ∅ "W1" 0)))
    | Some e => Panicked (PanicError (wrapError "Failed to activate layout" e))
    end.
Proof.
  apply (LegacyFacts.focus_always_switches en_us_table (mkEvent "activewindowv2" ["W1"])
           (mkTracker ∅ "W1" 0) "W1" (world_of (Some "sig") [] sim_en_us));
    reflexivity.
Defined.

Lemma legacy_reconnect_keeps_state_witness :
  ∃ w' reader',
    Legacy.turn en_us_table [] (mkTracker (<["W1" := 1]> ∅) "W1" 1) world_refused
    = (w', Legacy.Goes reader' (mkTracker (<["W1" := 1]> ∅) "W1" 1)) ∧
    retry w' = S (retry world_refused) ∧ ctl w' = ctl world_refused ∧
    ∃ tr, trace w' = trace world_refused ++ tr ∧
          forallb (λ e, match e with ExecDevices | ExecSwitch _ => false | _ => true end) tr
          = true.
Proof.
  apply (LegacyFacts.reconnect_keeps_state en_us_table (mkTracker (<["W1" := 1]> ∅) "W1" 1)
           world_refused).
  simpl. lia.
Defined.

Lemma legacy_gives_up_after_four_failures_witness :
  ∃ w', Legacy.loop 5 en_us_table [] initial world_refused
        = (w', Some (PanicError (errorString "Failed to reconnect after 4 attempts"))) ∧
        sleeps (trace w') = sleeps (trace world_refused) ++ [Second; 2 * Second; 3 * Second].
Proof.
  apply (LegacyFacts.gives_up_after_four_failures en_us_table initial world_refused 5);
    [reflexivity | done | lia].
Defined.

Lemma legacy_missing_signature_is_fatal_witness :
  Legacy.main 3 (world_of None [] sim_en_us)
  = (emit (Log LevelError
             (Error (wrapError "Could not connect to the hyprland socket"
                       (errorString "do you have Hyprland instance launched?"))))
          (world_of None [] sim_en_us),
     Some (PanicError (wrapError "Could not connect to the hyprland socket"
                         (errorString "do you have Hyprland instance launched?")))).
Proof.
  apply (LegacyFacts.missing_signature_is_fatal (world_of None [] sim_en_us) 3).
  reflexivity.
Defined.

(** A whole run of the earlier program: discovery, two focus events for
    one window (two commands), then the connection is lost for good. *)
Example legacy_run :
  switches (trace (Legacy.main 10 world_legacy).1) = [0; 1; 0; 0; 0] ∧
  sleeps (trace (Legacy.main 10 world_legacy).1) = [Second; 2 * Second; 3 * Second] ∧
  (Legacy.main 10 world_legacy).2
  = Some (PanicError (errorString "Failed to reconnect after 4 attempts")).
Proof. repeat split; by vm_compute. Qed.

(** ** The backoff schedule over whole runs *)


Section ScheduleFacts.

Context {St : Type} `{!Hyprctl St}.
Implicit Types (w : World St).





Lemma last_snoc_app {A} (l1 l2 : list A) (x : A) : last (l1 ++ l2 ++ [x]) = Some x.
Proof. by rewrite app_assoc, last_snoc. Qed.




End ScheduleFacts.


(** What [schedule] accepts and what it refuses. *)
Example schedule_discriminates :
  schedule 0 [Log LevelError "e"; Log LevelInfo "w"; Sleep (500 * Millisecond)] = true ∧
  schedule 0 [Log LevelError "e"; Log LevelInfo "w"; Sleep Second] = false ∧
  schedule 1 [Log LevelError "e"; Log LevelInfo "w"; Sleep Second] = true ∧
  schedule 1 [ReadLine (Some "a>>b"); Log LevelError "e"; Log LevelInfo "w"; Sleep Second]
  = false ∧
  schedule 1 [ReadLine (Some "ab"); Log LevelError "e"; Log LevelInfo "w"; Sleep Second]
  = true ∧
  schedule 4 [Log LevelError "e"] = true ∧
  schedule 4 [Log LevelError "e"; Log LevelInfo "w"; Sleep (4 * Second)] = false ∧
  schedule 0 [Log LevelError "e"] = false ∧
  schedule 0 [Sleep (500 * Millisecond)] = false.
Proof. repeat split; reflexivity. Qed.
